(** * A verified model of the order book (package [orderbook])

    The development follows the Go sources: [levelMap] and its mutation
    primitives ([set], [insertPrice], [removePrice], [best]), the
    [OrderBook] with [ApplySnapshot], [ApplyUpdate], [BestBid], [BestAsk],
    [GetBids], [GetAsks] and [GetLastID].

    Modelling decisions:
    - [float64] is an IEEE 754 binary64 value, represented by the Standard
      Library's [spec_float]; the comparisons are the IEEE ones of
      [SpecFloat] (a NaN compares false with everything, the two zeros are
      equal).
    - [int64] is a [Z] whose additions wrap around ([add64]).
    - [map[float64]float64] is an association list looked up with the
      float equality [==], which is what a Go map uses on float keys.
    - [strconv.ParseFloat] is library code: the book is modelled in a
      Section over an arbitrary parser; a concrete decimal parser
      instantiates it in the examples.
    - the mutex is not modelled: every operation runs to its end under the
      lock, so a sequential state transformer is what a caller can observe.
    - a run-time panic (index out of range, negative [make] length) is an
      explicit outcome. *)

From Stdlib Require Import ZArith List Bool Lia Ascii String.
From Stdlib Require Import Sorting.Sorted Sorting.Permutation.
From Stdlib Require Import Floats.SpecFloat.
Import ListNotations.

Local Open Scope Z_scope.

(** ** 64-bit floats *)

Module F64.

Definition float64 : Type := spec_float.

Definition prec : Z := 53.
Definition emax : Z := 1024.

Definition zero : float64 := S754_zero false.
Definition nan : float64 := S754_nan.

(** Go's [==], [<], [<=], [>], [>=] on [float64]. *)
Definition eqb (x y : float64) : bool := SFeqb x y.
Definition ltb (x y : float64) : bool := SFltb x y.
Definition leb (x y : float64) : bool := SFleb x y.
Definition gtb (x y : float64) : bool := ltb y x.
Definition geb (x y : float64) : bool := leb y x.

(** [x != x], the test behind [math.IsNaN]. *)
Definition isNaN (x : float64) : bool :=
  match x with S754_nan => true | _ => false end.

(** The integer [n] as a float (round to nearest even). *)
Definition ofZ (n : Z) : float64 := binary_normalize prec emax n 0 false.

(** A position on a lexicographically ordered triple of integers: the
    IEEE order of the floats is the order of their ranks.  NaN is given
    the least rank, which is where [sort.Float64Slice] puts it. *)
Definition rank (x : float64) : Z * Z * Z :=
  match x with
  | S754_nan => (-3, 0, 0)
  | S754_infinity true => (-2, 0, 0)
  | S754_finite true m e => (-1, - e, Z.neg m)
  | S754_zero _ => (0, 0, 0)
  | S754_finite false m e => (1, e, Z.pos m)
  | S754_infinity false => (2, 0, 0)
  end.

Definition lexlt (a b : Z * Z * Z) : Prop :=
  let '(a1, a2, a3) := a in
  let '(b1, b2, b3) := b in
  a1 < b1 \/ (a1 = b1 /\ (a2 < b2 \/ (a2 = b2 /\ a3 < b3))).

(** The order of the ranks, as a relation on floats. *)
Definition FLt (x y : float64) : Prop := lexlt (rank x) (rank y).
Definition FEq (x y : float64) : Prop := rank x = rank y.

End F64.

Import F64.

(** ** 64-bit integers *)

Module Int64.

Definition min_int64 : Z := - 2 ^ 63.
Definition max_int64 : Z := 2 ^ 63 - 1.

Definition in_range (z : Z) : Prop := min_int64 <= z <= max_int64.

(** Two's complement wrap-around of a mathematical integer. *)
Definition wrap (z : Z) : Z := (z + 2 ^ 63) mod 2 ^ 64 - 2 ^ 63.

(** Go's [+] on [int64]. *)
Definition add64 (a b : Z) : Z := wrap (a + b).

End Int64.

Import Int64.

(** ** [map[float64]float64]

    Only lookup, assignment and [delete] are used by the program, never an
    iteration, so the order of the entries is immaterial.  Keys are compared
    with [==]: a NaN key is never found (an assignment at NaN adds an entry
    each time), and the two zeros are one key.  A key occurs at most once
    in a map built by assignments; [delete] drops every entry of the key. *)

Module GoMap.

Definition t : Type := list (float64 * float64).

Definition empty : t := [].

Fixpoint lookup (k : float64) (m : t) : option float64 :=
  match m with
  | [] => None
  | (k', v) :: m' => if eqb k' k then Some v else lookup k m'
  end.

(** [_, exists := m[k]] *)
Definition mem (k : float64) (m : t) : bool :=
  match lookup k m with Some _ => true | None => false end.

(** [m[k]] read as a value: the zero value when the key is absent. *)
Definition get (k : float64) (m : t) : float64 :=
  match lookup k m with Some v => v | None => zero end.

(** [m[k] = v] *)
Fixpoint store (k v : float64) (m : t) : t :=
  match m with
  | [] => [(k, v)]
  | (k', v') :: m' =>
      if eqb k' k then (k, v) :: m' else (k', v') :: store k v m'
  end.

(** [delete(m, k)] *)
Fixpoint delete (k : float64) (m : t) : t :=
  match m with
  | [] => []
  | (k', v') :: m' =>
      if eqb k' k then delete k m' else (k', v') :: delete k m'
  end.

Definition keys (m : t) : list float64 := map fst m.

End GoMap.

(** ** Package [sort] *)

Module GoSort.

(** [sort.Search]: the loop
    [for i < j { h := (i+j)/2; if !f(h) { i = h+1 } else { j = h } }].
    The distance [j - i] shrinks at every turn, so [n] turns are enough
    for [Search n f] (lemma [search_loop_fuel]). *)
Fixpoint search_loop (fuel : nat) (f : nat -> bool) (i j : nat) : nat :=
  match fuel with
  | O => i
  | S fuel' =>
      if (i <? j)%nat then
        let h := Nat.div2 (i + j) in
        if negb (f h) then search_loop fuel' f (h + 1)%nat j
        else search_loop fuel' f i h
      else i
  end.

Definition Search (n : nat) (f : nat -> bool) : nat := search_loop n f 0%nat n.

(** [sort.Float64Slice.Less]: NaNs are ordered before the other values. *)
Definition Float64Less (x y : float64) : bool :=
  ltb x y || (isNaN x && negb (isNaN y)).

(** [sort.Reverse(s).Less(i, j) = s.Less(j, i)] *)
Definition ReverseLess (less : float64 -> float64 -> bool)
  (x y : float64) : bool := less y x.

(** [sort.Sort] is modelled by a stable insertion sort, the algorithm it
    runs on slices of up to twelve elements.  On longer slices the result
    of the library can differ only in the relative order of elements that
    compare equal. *)
Fixpoint insertBy (less : float64 -> float64 -> bool) (x : float64)
  (l : list float64) : list float64 :=
  match l with
  | [] => [x]
  | y :: l' => if less x y then x :: l else y :: insertBy less x l'
  end.

Definition Sort (less : float64 -> float64 -> bool) (l : list float64)
  : list float64 :=
  fold_left (fun acc x => insertBy less x acc) l [].

(** [sort.Float64s(x)] *)
Definition Float64s (l : list float64) : list float64 := Sort Float64Less l.

(** [sort.Sort(sort.Reverse(sort.Float64Slice(x)))] *)
Definition Float64sReverse (l : list float64) : list float64 :=
  Sort (ReverseLess Float64Less) l.

End GoSort.

(** ** The price-level table *)

Record levelMap : Type := mkLevelMap {
  isBid : bool;
  prices : list float64;
  qtyAt : GoMap.t
}.

Definition newLevelMap (isBid : bool) : levelMap :=
  {| isBid := isBid; prices := []; qtyAt := GoMap.empty |}.

(** The position [sort.Search] finds for [price] on this side: for bids the
    first index whose price is [<= price], for asks the first index whose
    price is [>= price]. *)
Definition searchPos (lm : levelMap) (price : float64) : nat :=
  let n := List.length (prices lm) in
  if isBid lm then
    GoSort.Search n (fun i => leb (nth i (prices lm) zero) price)
  else
    GoSort.Search n (fun i => geb (nth i (prices lm) zero) price).

Definition insertPrice (lm : levelMap) (price : float64) : levelMap :=
  let insertPos := searchPos lm price in
  {| isBid := isBid lm;
     prices := firstn insertPos (prices lm) ++ price :: skipn insertPos (prices lm);
     qtyAt := qtyAt lm |}.

Definition removePrice (lm : levelMap) (price : float64) : levelMap :=
  let n := List.length (prices lm) in
  let pos := searchPos lm price in
  if (pos <? n)%nat && eqb (nth pos (prices lm) zero) price then
    {| isBid := isBid lm;
       prices := firstn pos (prices lm) ++ skipn (pos + 1) (prices lm);
       qtyAt := qtyAt lm |}
  else lm.

Definition withQtyAt (lm : levelMap) (m : GoMap.t) : levelMap :=
  {| isBid := isBid lm; prices := prices lm; qtyAt := m |}.

(** [set] updates the quantity at a price; a zero quantity removes the
    level. *)
Definition set (lm : levelMap) (price qty : float64) : levelMap :=
  let exists_ := GoMap.mem price (qtyAt lm) in
  if eqb qty zero then
    if exists_ then
      removePrice (withQtyAt lm (GoMap.delete price (qtyAt lm))) price
    else lm
  else
    let lm' := withQtyAt lm (GoMap.store price qty (qtyAt lm)) in
    if negb exists_ then insertPrice lm' price else lm'.

(** [best] returns the top price and quantity, or [false] if empty. *)
Definition best (lm : levelMap) : float64 * float64 * bool :=
  match prices lm with
  | [] => (zero, zero, false)
  | p :: _ => (p, GoMap.get p (qtyAt lm), true)
  end.

(** ** The book *)

Record OrderBook : Type := mkOrderBook {
  lastID : Z;
  bids : levelMap;
  asks : levelMap
}.

Definition New : OrderBook :=
  {| lastID := 0; bids := newLevelMap true; asks := newLevelMap false |}.

Definition BestBid (ob : OrderBook) : float64 * float64 * bool := best (bids ob).
Definition BestAsk (ob : OrderBook) : float64 * float64 * bool := best (asks ob).
Definition GetLastID (ob : OrderBook) : Z := lastID ob.

Record Level : Type := mkLevel { Price : float64; Quantity : float64 }.

(** The result of a call that can panic. *)
Inductive panics (A : Type) : Type :=
| Done (a : A)
| Panic.
Arguments Done {A} a.
Arguments Panic {A}.

Definition min (a b : Z) : Z := if a <? b then a else b.

(** The body that [GetBids] and [GetAsks] share, each on its table:
    [count := min(len(prices), maxLevels); levels := make([]Level, count)]
    panics on a negative [count]; the loop then fills the [count] first
    levels. *)
Definition topLevels (lm : levelMap) (maxLevels : Z) : panics (list Level) :=
  let count := min (Z.of_nat (List.length (prices lm))) maxLevels in
  if count <? 0 then Panic
  else
    Done (map (fun price => {| Price := price;
                               Quantity := GoMap.get price (qtyAt lm) |})
              (firstn (Z.to_nat count) (prices lm))).

Definition GetBids (ob : OrderBook) (maxLevels : Z) : panics (list Level) :=
  topLevels (bids ob) maxLevels.

Definition GetAsks (ob : OrderBook) (maxLevels : Z) : panics (list Level) :=
  topLevels (asks ob) maxLevels.

(** ** Messages and errors *)

Module SnapshotMsg.
Record t : Type := mk {
  LastUpdateID : Z;
  Bids : list (list string);
  Asks : list (list string)
}.
End SnapshotMsg.

Module UpdateMsg.
Record t : Type := mk {
  FirstID : Z;
  FinalID : Z;
  Bids : list (list string);
  Asks : list (list string)
}.
End UpdateMsg.

(** The two errors of [strconv.ParseFloat] ([*NumError] over [ErrSyntax] or
    [ErrRange]). *)
Inductive NumError : Type := ErrSyntax | ErrRange.

(** The non-nil values of [error] the package returns. *)
Inductive error : Type :=
| ErrGap
| ErrNum (e : NumError).

(** What a call of the book does: it returns an [error] ([None] is [nil])
    or panics. *)
Inductive outcome : Type :=
| Returned (err : option error)
| Panicked.

Definition liftErr (e : option NumError) : option error :=
  match e with Some e' => Some (ErrNum e') | None => None end.

Definition isSome {A : Type} (o : option A) : bool :=
  match o with Some _ => true | None => false end.

(** ** Loading a snapshot and applying an update *)

(** How one of the parsing loops over the levels of a message ends. *)
Inductive loopEnd : Type :=
| Completed
| Return (err : option error)
| IndexPanic.

Section Book.

(** [strconv.ParseFloat(s, 64)]: a value and an error ([None] is [nil]). *)
Variable ParseFloat : string -> float64 * option NumError.

(** The loop of [ApplySnapshot] over one side: it fills the map of the
    fresh table and collects the prices.  [lvl[0]] and [lvl[1]] panic on
    a level of fewer than two strings.  On a failed parse the loop
    returns [err1], the error of the price. *)
Fixpoint snapshotLoop (levels : list (list string)) (qty : GoMap.t)
  (acc : list float64) : GoMap.t * list float64 * loopEnd :=
  match levels with
  | [] => (qty, acc, Completed)
  | lvl :: rest =>
      match lvl with
      | s0 :: s1 :: _ =>
          let '(price, err1) := ParseFloat s0 in
          let '(q, err2) := ParseFloat s1 in
          if isSome err1 || isSome err2 then (qty, acc, Return (liftErr err1))
          else if gtb q zero then
            snapshotLoop rest (GoMap.store price q qty) (acc ++ [price])
          else snapshotLoop rest qty acc
      | _ => (qty, acc, IndexPanic)
      end
  end.

Definition endOutcome (e : loopEnd) : outcome :=
  match e with
  | Completed => Returned None
  | Return err => Returned err
  | IndexPanic => Panicked
  end.

(** [ApplySnapshot] loads a fresh snapshot, replacing everything.  The
    two tables are replaced first; the sorted prices of a side are stored
    in its table after its loop, and [lastID] at the very end. *)
Definition ApplySnapshot (ob : OrderBook) (snap : SnapshotMsg.t)
  : OrderBook * outcome :=
  let '(bidQty, bidPrices, bidEnd) :=
    snapshotLoop (SnapshotMsg.Bids snap) GoMap.empty [] in
  match bidEnd with
  | Completed =>
      let bids' := {| isBid := true;
                      prices := GoSort.Float64sReverse bidPrices;
                      qtyAt := bidQty |} in
      let '(askQty, askPrices, askEnd) :=
        snapshotLoop (SnapshotMsg.Asks snap) GoMap.empty [] in
      match askEnd with
      | Completed =>
          ({| lastID := SnapshotMsg.LastUpdateID snap;
              bids := bids';
              asks := {| isBid := false;
                         prices := GoSort.Float64s askPrices;
                         qtyAt := askQty |} |},
           Returned None)
      | _ =>
          ({| lastID := lastID ob;
              bids := bids';
              asks := {| isBid := false; prices := []; qtyAt := askQty |} |},
           endOutcome askEnd)
      end
  | _ =>
      ({| lastID := lastID ob;
          bids := {| isBid := true; prices := []; qtyAt := bidQty |};
          asks := newLevelMap false |},
       endOutcome bidEnd)
  end.

(** The helper [parseLevels] of [ApplyUpdate]: every level is parsed and
    handed to [set]; on a failed parse it returns [err1]. *)
Fixpoint parseLevels (levels : list (list string)) (m : levelMap)
  : levelMap * outcome :=
  match levels with
  | [] => (m, Returned None)
  | lvl :: rest =>
      match lvl with
      | s0 :: s1 :: _ =>
          let '(price, err1) := ParseFloat s0 in
          let '(qty, err2) := ParseFloat s1 in
          if isSome err1 || isSome err2 then (m, Returned (liftErr err1))
          else parseLevels rest (set m price qty)
      | _ => (m, Panicked)
      end
  end.

Definition withBids (ob : OrderBook) (m : levelMap) : OrderBook :=
  {| lastID := lastID ob; bids := m; asks := asks ob |}.

Definition withAsks (ob : OrderBook) (m : levelMap) : OrderBook :=
  {| lastID := lastID ob; bids := bids ob; asks := m |}.

(** [ApplyUpdate] applies an incremental update to the order book. *)
Definition ApplyUpdate (ob : OrderBook) (upd : UpdateMsg.t)
  : OrderBook * outcome :=
  if UpdateMsg.FinalID upd <? add64 (lastID ob) 1 then (ob, Returned None)
  else if (add64 (lastID ob) 1 <? UpdateMsg.FirstID upd)
          || (UpdateMsg.FinalID upd <? add64 (lastID ob) 1)
  then (ob, Returned (Some ErrGap))
  else
    let '(bids', r1) := parseLevels (UpdateMsg.Bids upd) (bids ob) in
    let ob1 := withBids ob bids' in
    match r1 with
    | Returned None =>
        let '(asks', r2) := parseLevels (UpdateMsg.Asks upd) (asks ob1) in
        let ob2 := withAsks ob1 asks' in
        match r2 with
        | Returned None =>
            ({| lastID := UpdateMsg.FinalID upd;
                bids := bids ob2; asks := asks ob2 |}, Returned None)
        | _ => (ob2, r2)
        end
    | _ => (ob1, r1)
    end.

End Book.

(** ** A decimal parser

    An executable instance of [strconv.ParseFloat] for the examples: an
    optional sign, decimal digits with an optional point and an optional
    decimal exponent, and the words [NaN], [Inf] and [Infinity].  The value is the
    quotient or product of the digits and the power of ten, rounded to the
    nearest even binary64 (the exact path of the library, which applies
    when the digits are below [2^53] and the power of ten is at most
    [10^22]).  Hexadecimal literals and digit separators are not read:
    they are answered with [ErrSyntax].  The theorems do not depend on
    this parser; the scenarios use it on plain decimal strings. *)

Module Decimal.

Definition digitOf (c : ascii) : option Z :=
  let n := Z.of_nat (nat_of_ascii c) in
  if (48 <=? n) && (n <=? 57) then Some (n - 48) else None.

Fixpoint readDigits (cs : list ascii) (acc cnt : Z) : Z * Z * list ascii :=
  match cs with
  | c :: cs' =>
      match digitOf c with
      | Some d => readDigits cs' (10 * acc + d) (cnt + 1)
      | None => (acc, cnt, cs)
      end
  | [] => (acc, cnt, [])
  end.

Definition readSign (cs : list ascii) : bool * list ascii :=
  match cs with
  | "+"%char :: cs' => (false, cs')
  | "-"%char :: cs' => (true, cs')
  | _ => (false, cs)
  end.

(** The decimal exponent: [None] on [e] without digits or on trailing
    text. *)
Definition readExponent (cs : list ascii) : option Z :=
  match cs with
  | [] => Some 0
  | c :: cs' =>
      if Ascii.eqb c "e" || Ascii.eqb c "E" then
        let '(neg, ds) := readSign cs' in
        match readDigits ds 0 0 with
        | (e, cnt, []) =>
            if 0 <? cnt then Some (if neg then - e else e) else None
        | _ => None
        end
      else None
  end.

(** [mant * 10 ^ e10], rounded. *)
Definition scale (neg : bool) (mant e10 : Z) : float64 :=
  if mant =? 0 then S754_zero neg
  else
    let x :=
      if 0 <=? e10 then ofZ (mant * 10 ^ e10)
      else SFdiv prec emax (ofZ mant) (ofZ (10 ^ (- e10))) in
    if neg then SFopp x else x.

Definition withRange (x : float64) : float64 * option NumError :=
  match x with
  | S754_infinity _ => (x, Some ErrRange)
  | _ => (x, None)
  end.

Definition parseNumber (cs : list ascii) : float64 * option NumError :=
  let '(neg, cs1) := readSign cs in
  let '(m1, n1, cs2) := readDigits cs1 0 0 in
  let '(m2, n2, cs3) :=
    match cs2 with
    | "."%char :: cs' => readDigits cs' m1 0
    | _ => (m1, 0, cs2)
    end in
  if 0 <? n1 + n2 then
    match readExponent cs3 with
    | Some e => withRange (scale neg m2 (e - n2))
    | None => (zero, Some ErrSyntax)
    end
  else (zero, Some ErrSyntax).

Definition lower (c : ascii) : ascii :=
  let n := nat_of_ascii c in
  if ((65 <=? n) && (n <=? 90))%nat then ascii_of_nat (n + 32) else c.

(** The special values: [NaN], and [Inf] or [Infinity] with an optional
    sign, in any case. *)
Definition special (s : string) : option float64 :=
  let w := string_of_list_ascii (map lower (list_ascii_of_string s)) in
  if String.eqb w "nan" then Some nan
  else if String.eqb w "inf" || String.eqb w "+inf"
          || String.eqb w "infinity" || String.eqb w "+infinity"
  then Some (S754_infinity false)
  else if String.eqb w "-inf" || String.eqb w "-infinity"
  then Some (S754_infinity true)
  else None.

Definition ParseFloat (s : string) : float64 * option NumError :=
  match special s with
  | Some x => (x, None)
  | None => parseNumber (list_ascii_of_string s)
  end.

End Decimal.


(** ** Scenarios

    Concrete books and messages, run with the decimal parser. *)

Module Scenario.

Local Open Scope string_scope.

Definition parse := Decimal.ParseFloat.

(** End-to-end scenario 1 of the specification. *)
Definition snapshot1 : SnapshotMsg.t :=
  SnapshotMsg.mk 1 [["10000"; "1.0"]] [["10010"; "1.0"]].
Definition book1 : OrderBook := fst (ApplySnapshot parse New snapshot1).
Definition diff2 : UpdateMsg.t :=
  UpdateMsg.mk 2 2 [["10000"; "0"]] [["10010"; "0"]].

(** End-to-end scenario 2: a gap. *)
Definition snapshot1000 : SnapshotMsg.t := SnapshotMsg.mk 1000 [] [].
Definition book1000 : OrderBook := fst (ApplySnapshot parse New snapshot1000).
Definition diffGap : UpdateMsg.t := UpdateMsg.mk 1050 1060 [["1"; "1"]] [].

(** A replayed diff, with entries that would not even parse. *)
Definition diffStale : UpdateMsg.t :=
  UpdateMsg.mk 990 1000 [["x"]; ["1"; "y"]] [[]].

(** "Monotonic best-price" of the specification, then a diff that moves
    both sides. *)
Definition snapshot4 : SnapshotMsg.t :=
  SnapshotMsg.mk 7 [["99"; "1"]; ["100"; "1"]; ["98"; "0"]]
                   [["102"; "1"]; ["101"; "1"]].
Definition book4 : OrderBook := fst (ApplySnapshot parse New snapshot4).
Definition diff8 : UpdateMsg.t :=
  UpdateMsg.mk 8 9 [["99.5"; "2"]; ["100"; "0"]; ["97"; "3"]]
                   [["101.5"; "4"]; ["101"; "0"]].
Definition book9 : OrderBook := fst (ApplyUpdate parse book4 diff8).

(** A snapshot that names one bid price twice. *)
Definition snapshotTwice : SnapshotMsg.t :=
  SnapshotMsg.mk 1 [["100"; "1"]; ["100.0"; "2"]] [].

(** A snapshot whose bids are above its asks. *)
Definition snapshotCrossed : SnapshotMsg.t :=
  SnapshotMsg.mk 1 [["10"; "1"]] [["5"; "1"]].

(** Messages with a quantity that is not a number. *)
Definition snapshotBadQty : SnapshotMsg.t :=
  SnapshotMsg.mk 5 [["100"; "abc"]] [].
Definition diffBadQty : UpdateMsg.t :=
  UpdateMsg.mk 1 1 [["100"; "abc"]] [].

(** A book with one bid, and a snapshot whose last ask price is not a
    number. *)
Definition snapshotBid : SnapshotMsg.t := SnapshotMsg.mk 3 [["100"; "1"]] [].
Definition bookBid : OrderBook := fst (ApplySnapshot parse New snapshotBid).
Definition snapshotBadAsk : SnapshotMsg.t :=
  SnapshotMsg.mk 4 [["100"; "1"]] [["101"; "1"]; ["x"; "1"]].

(** A snapshot that fails on its second bid, and a diff that sets a
    negative quantity at the price of the first. *)
Definition snapshotBadBid : SnapshotMsg.t :=
  SnapshotMsg.mk 1 [["100"; "1"]; ["x"; "1"]] [].
Definition bookBadBid : OrderBook :=
  fst (ApplySnapshot parse New snapshotBadBid).
Definition diffNegative : UpdateMsg.t :=
  UpdateMsg.mk 1 1 [["100"; "-5"]] [].

(** A diff with a negative quantity between two other entries. *)
Definition diffNegative3 : UpdateMsg.t :=
  UpdateMsg.mk 1 1 [["99"; "1"]; ["100"; "-5"]; ["101"; "2"]] [].

End Scenario.

(** ** Vocabulary of the specification

    The definitions of this part follow the words of the specification;
    the theorems compare them with the operations above. *)

(** [x] stands strictly before [y] on a side: bid prices descend, ask
    prices ascend. *)
Definition strictlyBefore (isBid : bool) (x y : float64) : bool :=
  if isBid then gtb x y else ltb x y.

(** The test [sort.Search] runs on a side: true from the first price that
    does not stand strictly before [p]. *)
Definition sidePred (isBid : bool) (x p : float64) : bool :=
  if isBid then leb x p else geb x p.

(** In a list sorted for the order [LtR], no element is followed by a
    smaller one. *)
Definition noInversion (LtR : float64 -> float64 -> Prop) (x y : float64)
  : Prop := ~ LtR y x.

(** Invariant I1: the prices are strictly sorted in the order of the side
    (so no price occurs twice). *)
Definition sortedPrices (lm : levelMap) : Prop :=
  StronglySorted (fun x y => strictlyBefore (isBid lm) x y = true) (prices lm).

(** Invariant I2: a price is listed exactly when it is a key of the map. *)
Definition sameKeys (lm : levelMap) : Prop :=
  forall p, existsb (eqb p) (prices lm) = GoMap.mem p (qtyAt lm).

Record tableInv (lm : levelMap) : Prop := mkTableInv {
  inv_numbers : Forall (fun p => isNaN p = false) (prices lm);
  inv_sorted : sortedPrices lm;
  inv_keys : sameKeys lm
}.

(** No two prices of the list are [==]. *)
Fixpoint distinctb (l : list float64) : bool :=
  match l with
  | [] => true
  | x :: l' => negb (existsb (eqb x) l') && distinctb l'
  end.

(** The map that holds the entries, a later entry of a price replacing an
    earlier one. *)
Definition loadQty (entries : list (float64 * float64)) (m : GoMap.t) : GoMap.t :=
  fold_left (fun m e => GoMap.store (fst e) (snd e) m) entries m.

(** "[bulkLoad] replaces the table's contents directly from a
    price-to-quantity collection": the prices are sorted once, in the order
    of the side. *)
Definition bulkLoad (isBid : bool) (entries : list (float64 * float64))
  : levelMap :=
  {| isBid := isBid;
     prices := (if isBid then GoSort.Float64sReverse else GoSort.Float64s)
                 (map fst entries);
     qtyAt := loadQty entries GoMap.empty |}.

(** Half of invariant I2: every key of the map is a listed price. *)
Definition keysListed (lm : levelMap) : Prop :=
  forall k, GoMap.mem k (qtyAt lm) = true -> existsb (eqb k) (prices lm) = true.

(** The table and the levels of one side. *)
Definition sideTable (bidSide : bool) (ob : OrderBook) : levelMap :=
  if bidSide then bids ob else asks ob.

Definition sideLevels (bidSide : bool) (upd : UpdateMsg.t) : list (list string) :=
  if bidSide then UpdateMsg.Bids upd else UpdateMsg.Asks upd.

Section SpecWords.

Variable ParseFloat : string -> float64 * option NumError.

(** A level of a message is well formed when it holds a price string and
    a quantity string that both parse. *)
Definition levelParses (lvl : list string) : bool :=
  match lvl with
  | s0 :: s1 :: _ =>
      negb (isSome (snd (ParseFloat s0))) && negb (isSome (snd (ParseFloat s1)))
  | _ => false
  end.

(** The price and the quantity of a level. *)
Definition parsedLevel (lvl : list string) : float64 * float64 :=
  (fst (ParseFloat (nth 0 lvl EmptyString)),
   fst (ParseFloat (nth 1 lvl EmptyString))).

(** "for every entry, call [set(price, quantity)]" *)
Definition applyEntries (levels : list (list string)) (lm : levelMap)
  : levelMap :=
  fold_left (fun m lvl => set m (fst (parsedLevel lvl)) (snd (parsedLevel lvl)))
            levels lm.

(** "a diff is acceptable iff [firstSeq <= lastSequence + 1 <= finalSeq]";
    the sum is the one the program computes, on [int64]. *)
Definition acceptable (ob : OrderBook) (upd : UpdateMsg.t) : Prop :=
  UpdateMsg.FirstID upd <= add64 (lastID ob) 1 <= UpdateMsg.FinalID upd.

(** The book after an accepted diff: every entry applied, the sequence
    advanced. *)
Definition appliedBook (ob : OrderBook) (upd : UpdateMsg.t) : OrderBook :=
  {| lastID := UpdateMsg.FinalID upd;
     bids := applyEntries (UpdateMsg.Bids upd) (bids ob);
     asks := applyEntries (UpdateMsg.Asks upd) (asks ob) |}.

(** "entries with non-positive quantity are dropped": the entries of a
    side that a snapshot keeps. *)
Definition positiveEntries (levels : list (list string))
  : list (float64 * float64) :=
  filter (fun e => gtb (snd e) zero) (map parsedLevel levels).

(** A side of a snapshot is clean when every level parses and the prices
    it keeps are numbers, no two of them equal. *)
Definition cleanSide (levels : list (list string)) : bool :=
  forallb levelParses levels
  && forallb (fun p => negb (isNaN p)) (map fst (positiveEntries levels))
  && distinctb (map fst (positiveEntries levels)).

Definition cleanSnapshot (snap : SnapshotMsg.t) : bool :=
  cleanSide (SnapshotMsg.Bids snap) && cleanSide (SnapshotMsg.Asks snap).

(** The price of a level that reaches [set] is a number. *)
Definition priceIsNumber (lvl : list string) : bool :=
  match lvl with
  | s0 :: _ :: _ => negb (isNaN (fst (ParseFloat s0)))
  | _ => true
  end.

Definition numericUpdate (upd : UpdateMsg.t) : bool :=
  forallb priceIsNumber (UpdateMsg.Bids upd)
  && forallb priceIsNumber (UpdateMsg.Asks upd).

(** The books reached from [New] by any snapshots and updates. *)
Inductive reachable : OrderBook -> Prop :=
| any_New : reachable New
| any_snapshot ob snap :
    reachable ob -> reachable (fst (ApplySnapshot ParseFloat ob snap))
| any_update ob upd :
    reachable ob -> reachable (fst (ApplyUpdate ParseFloat ob upd)).

(** The books reached from [New] by clean snapshots and by updates whose
    prices are numbers (whatever the outcome of the update). *)
Inductive cleanlyReachable : OrderBook -> Prop :=
| reach_New : cleanlyReachable New
| reach_snapshot ob snap :
    cleanlyReachable ob -> cleanSnapshot snap = true ->
    cleanlyReachable (fst (ApplySnapshot ParseFloat ob snap))
| reach_update ob upd :
    cleanlyReachable ob -> numericUpdate upd = true ->
    cleanlyReachable (fst (ApplyUpdate ParseFloat ob upd)).

(** Invariants I1 and I2 on both sides of a book, bids descending and
    asks ascending. *)
Definition bookSorted (ob : OrderBook) : Prop :=
  StronglySorted (fun x y => gtb x y = true) (prices (bids ob))
  /\ StronglySorted (fun x y => ltb x y = true) (prices (asks ob))
  /\ sameKeys (bids ob) /\ sameKeys (asks ob).

(** A book is uncrossed when every listed bid price is below every
    listed ask price. *)
Definition uncrossed (ob : OrderBook) : Prop :=
  forall b a, In b (prices (bids ob)) -> In a (prices (asks ob)) ->
              ltb b a = true.

Definition allBelow (bs as_ : list float64) : bool :=
  forallb (fun b => forallb (fun a => ltb b a) as_) bs.

(** The prices a snapshot keeps are uncrossed. *)
Definition uncrossedSnapshot (snap : SnapshotMsg.t) : bool :=
  allBelow (map fst (positiveEntries (SnapshotMsg.Bids snap)))
           (map fst (positiveEntries (SnapshotMsg.Asks snap))).

(** The prices that the entries of a diff can add to a side: those of a
    quantity other than zero. *)
Definition addedPrices (levels : list (list string)) : list float64 :=
  map fst (filter (fun e => negb (eqb (snd e) zero)) (map parsedLevel levels)).

(** The prices a diff can add are uncrossed with the book and with one
    another. *)
Definition uncrossedUpdate (ob : OrderBook) (upd : UpdateMsg.t) : bool :=
  allBelow (addedPrices (UpdateMsg.Bids upd))
           (prices (asks ob) ++ addedPrices (UpdateMsg.Asks upd))
  && allBelow (prices (bids ob)) (addedPrices (UpdateMsg.Asks upd)).

(** The books reached from [New] when the feed is uncrossed. *)
Inductive uncrossedFeed : OrderBook -> Prop :=
| feed_New : uncrossedFeed New
| feed_snapshot ob snap :
    uncrossedFeed ob -> uncrossedSnapshot snap = true ->
    uncrossedFeed (fst (ApplySnapshot ParseFloat ob snap))
| feed_update ob upd :
    uncrossedFeed ob -> uncrossedUpdate ob upd = true ->
    uncrossedFeed (fst (ApplyUpdate ParseFloat ob upd)).

(** The entries of a side that are processed before the first level that
    fails, and those of them that a snapshot keeps. *)
Fixpoint parsedPrefix (levels : list (list string))
  : list (float64 * float64) :=
  match levels with
  | [] => []
  | lvl :: rest =>
      if levelParses lvl then parsedLevel lvl :: parsedPrefix rest else []
  end.

Definition keptPrefix (levels : list (list string))
  : list (float64 * float64) :=
  filter (fun e => gtb (snd e) zero) (parsedPrefix levels).

End SpecWords.

(** ** The stream client (package [wsclient])

    The client owns the book and two fields of its own: the sequence
    number of the last snapshot it fetched, and a flag that is true until
    the first update after that snapshot.  The network is outside the
    model: the body that an HTTP request would deliver is an argument
    ([None] when the request, its status or its decoding fails), and the
    loop of [Run] is modelled by the handling of one decoded message. *)

Module WsClient.

Record Client : Type := mkClient {
  lastUpdateId : Z;
  syncing : bool
}.

(** What [fetchSnapshot] returns: the error of the request, or what
    [ApplySnapshot] did. *)
Inductive fetched : Type :=
| RequestFailed
| Applied (o : outcome).

Section Client.

Variable ParseFloat : string -> float64 * option NumError.

(** [fetchSnapshot]: on a decoded snapshot the client records its sequence
    number and sets [syncing] before the book loads it. *)
Definition fetchSnapshot (c : Client) (ob : OrderBook)
  (body : option SnapshotMsg.t) : Client * OrderBook * fetched :=
  match body with
  | None => (c, ob, RequestFailed)
  | Some snap =>
      let c' := {| lastUpdateId := SnapshotMsg.LastUpdateID snap;
                   syncing := true |} in
      let '(ob', o) := ApplySnapshot ParseFloat ob snap in
      (c', ob', Applied o)
  end.

(** The second half of a turn of the loop of [Run]: the update goes to
    [ApplyUpdate]; on [ErrGap] a snapshot is fetched, its error ignored;
    any other error is dropped.  A panic of the book ends the program. *)
Definition applyTurn (c : Client) (ob : OrderBook) (upd : UpdateMsg.t)
  (body : option SnapshotMsg.t) : panics (Client * OrderBook) :=
  let '(ob1, o) := ApplyUpdate ParseFloat ob upd in
  match o with
  | Panicked => Panic
  | Returned (Some ErrGap) =>
      match fetchSnapshot c ob1 body with
      | (_, _, Applied Panicked) => Panic
      | (c2, ob2, _) => Done (c2, ob2)
      end
  | Returned _ => Done (c, ob1)
  end.

(** One turn of the loop of [Run] on a decoded update: while syncing, an
    update that ends at or before the snapshot is skipped ([continue]) and
    the first later one ends the syncing. *)
Definition handleUpdate (c : Client) (ob : OrderBook) (upd : UpdateMsg.t)
  (body : option SnapshotMsg.t) : panics (Client * OrderBook) :=
  if syncing c then
    if UpdateMsg.FinalID upd <=? lastUpdateId c then Done (c, ob)
    else applyTurn {| lastUpdateId := lastUpdateId c; syncing := false |}
                   ob upd body
  else applyTurn c ob upd body.

End Client.

(** The book of a turn. *)
Definition bookOf (r : panics (Client * OrderBook)) : panics OrderBook :=
  match r with
  | Done (_, ob) => Done ob
  | Panic => Panic
  end.

End WsClient.

(** ** Further vocabulary *)

(** Invariant I3: no entry of the map holds a quantity equal to zero. *)
Definition noZeroQuantity (m : GoMap.t) : Prop :=
  forall k v, In (k, v) m -> eqb v zero = false.

(** The level that [topLevels] shows for a price. *)
Definition levelOf (lm : levelMap) (price : float64) : Level :=
  {| Price := price; Quantity := GoMap.get price (qtyAt lm) |}.

Section MoreWords.

Variable ParseFloat : string -> float64 * option NumError.


End MoreWords.

(** ** Further scenarios *)

Module MoreScenario.

Import Scenario WsClient.

Local Open Scope string_scope.

(** A client that has loaded [snapshot4] and is syncing. *)
Definition client7 : Client := {| lastUpdateId := 7; syncing := true |}.

(** An update that starts far after the book at sequence 7. *)
Definition diffFar : UpdateMsg.t := UpdateMsg.mk 20 30 [["1"; "1"]] [].

(** An update that ends at the sequence of [snapshot4]. *)
Definition diffOld : UpdateMsg.t := UpdateMsg.mk 5 7 [["50"; "1"]] [].

End MoreScenario.

(** * Properties *)

Module F64Facts.

Lemma lexlt_irrefl a : ~ lexlt a a.
Proof. destruct a as [[a1 a2] a3]; unfold lexlt; lia. Qed.

Lemma lexlt_trans a b c : lexlt a b -> lexlt b c -> lexlt a c.
Proof.
  destruct a as [[a1 a2] a3], b as [[b1 b2] b3], c as [[c1 c2] c3].
  unfold lexlt; lia.
Qed.

Lemma lexlt_total a b : lexlt a b \/ a = b \/ lexlt b a.
Proof.
  destruct a as [[a1 a2] a3], b as [[b1 b2] b3]; unfold lexlt.
  destruct (Z.lt_total a1 b1) as [?|[?|?]];
    destruct (Z.lt_total a2 b2) as [?|[?|?]];
    destruct (Z.lt_total a3 b3) as [?|[?|?]]; subst; auto 6; lia.
Qed.

Lemma FLt_irrefl x : ~ FLt x x.
Proof. apply lexlt_irrefl. Qed.

Lemma FLt_trans x y z : FLt x y -> FLt y z -> FLt x z.
Proof. apply lexlt_trans. Qed.

Lemma FLt_total x y : FLt x y \/ FEq x y \/ FLt y x.
Proof. apply lexlt_total. Qed.

Lemma FLt_asym x y : FLt x y -> ~ FLt y x.
Proof. intros H H'. exact (FLt_irrefl x (FLt_trans _ _ _ H H')). Qed.

Lemma FLt_FEq_l x y z : FEq x y -> FLt x z -> FLt y z.
Proof. unfold FEq, FLt. intros ->. trivial. Qed.

Lemma FLt_FEq_r x y z : FEq x y -> FLt z x -> FLt z y.
Proof. unfold FEq, FLt. intros ->. trivial. Qed.

Lemma FEq_sym x y : FEq x y -> FEq y x.
Proof. unfold FEq. auto. Qed.

Lemma FEq_not_Lt x y : FEq x y -> ~ FLt x y.
Proof. unfold FEq, FLt. intros ->. apply lexlt_irrefl. Qed.

Lemma Pos_compare_cont_Eq m1 m2 :
  Pos.compare_cont Eq m1 m2 = Pos.compare m1 m2.
Proof. reflexivity. Qed.

(** The comparison of [SpecFloat] on numbers is the comparison of the
    ranks. *)
Lemma SFcompare_rank x y :
  isNaN x = false -> isNaN y = false ->
  match SFcompare x y with
  | Some Lt => FLt x y
  | Some Eq => FEq x y
  | Some Gt => FLt y x
  | None => False
  end.
Proof.
  destruct x as [sx|sx| |sx mx ex], y as [sy|sy| |sy my ey];
    try discriminate; intros _ _; unfold FLt, FEq; simpl;
    try (destruct sx); try (destruct sy); simpl; try lia; try reflexivity.
  - rewrite Pos_compare_cont_Eq.
    destruct (Z.compare_spec ex ey); [|simpl; lia|simpl; lia].
    destruct (Pos.compare_spec mx my); simpl; subst; try lia; reflexivity.
  - rewrite Pos_compare_cont_Eq.
    destruct (Z.compare_spec ex ey); [|simpl; lia|simpl; lia].
    destruct (Pos.compare_spec mx my); simpl; subst; try lia; reflexivity.
Qed.

Lemma isNaN_rank x : isNaN x = true <-> rank x = (-3, 0, 0).
Proof.
  destruct x as [s|s| |s m e]; simpl; try destruct s; split;
    congruence || discriminate || reflexivity.
Qed.

Lemma FEq_isNaN x y : FEq x y -> isNaN x = isNaN y.
Proof.
  intros H. destruct (isNaN x) eqn:Hx, (isNaN y) eqn:Hy; trivial.
  - apply isNaN_rank in Hx. unfold FEq in H. rewrite Hx in H.
    symmetry in H. apply isNaN_rank in H. congruence.
  - apply isNaN_rank in Hy. unfold FEq in H. rewrite Hy in H.
    apply isNaN_rank in H. congruence.
Qed.

Lemma eqb_true x y :
  eqb x y = true <-> isNaN x = false /\ isNaN y = false /\ FEq x y.
Proof.
  unfold eqb, SFeqb. split.
  - intros H. destruct x as [sx|sx| |sx mx ex], y as [sy|sy| |sy my ey];
      try discriminate; (split; [reflexivity|split; [reflexivity|]]).
    all: match goal with
         | |- FEq ?a ?b =>
             pose proof (SFcompare_rank a b eq_refl eq_refl) as Hc;
             destruct (SFcompare a b) as [[| |]|]; try discriminate; exact Hc
         end.
  - intros (Hx & Hy & He). pose proof (SFcompare_rank x y Hx Hy) as Hc.
    destruct (SFcompare x y) as [[| |]|]; trivial.
    + exfalso. exact (FEq_not_Lt _ _ He Hc).
    + exfalso. exact (FEq_not_Lt _ _ (FEq_sym _ _ He) Hc).
    + contradiction.
Qed.

Lemma ltb_true x y :
  ltb x y = true <-> isNaN x = false /\ isNaN y = false /\ FLt x y.
Proof.
  unfold ltb, SFltb. split.
  - intros H. destruct x as [sx|sx| |sx mx ex], y as [sy|sy| |sy my ey];
      try discriminate; (split; [reflexivity|split; [reflexivity|]]).
    all: match goal with
         | |- FLt ?a ?b =>
             pose proof (SFcompare_rank a b eq_refl eq_refl) as Hc;
             destruct (SFcompare a b) as [[| |]|]; try discriminate; exact Hc
         end.
  - intros (Hx & Hy & Hl). pose proof (SFcompare_rank x y Hx Hy) as Hc.
    destruct (SFcompare x y) as [[| |]|]; trivial.
    + exfalso. exact (FEq_not_Lt _ _ Hc Hl).
    + exfalso. exact (FLt_asym _ _ Hl Hc).
    + contradiction.
Qed.

Lemma leb_true x y :
  leb x y = true <-> isNaN x = false /\ isNaN y = false /\ ~ FLt y x.
Proof.
  unfold leb, SFleb. split.
  - intros H. destruct x as [sx|sx| |sx mx ex], y as [sy|sy| |sy my ey];
      try discriminate; (split; [reflexivity|split; [reflexivity|]]).
    all: match goal with
         | |- ~ FLt ?b ?a =>
             pose proof (SFcompare_rank a b eq_refl eq_refl) as Hc;
             destruct (SFcompare a b) as [[| |]|]; try discriminate;
             [ apply FEq_not_Lt, FEq_sym, Hc | apply FLt_asym, Hc ]
         end.
  - intros (Hx & Hy & Hl). pose proof (SFcompare_rank x y Hx Hy) as Hc.
    destruct (SFcompare x y) as [[| |]|]; trivial; contradiction.
Qed.

Lemma eqb_sym x y : eqb x y = eqb y x.
Proof.
  destruct (eqb x y) eqn:H1, (eqb y x) eqn:H2; trivial.
  - apply eqb_true in H1. destruct H1 as (? & ? & ?).
    assert (eqb y x = true) by (apply eqb_true; auto using FEq_sym).
    congruence.
  - apply eqb_true in H2. destruct H2 as (? & ? & ?).
    assert (eqb x y = true) by (apply eqb_true; auto using FEq_sym).
    congruence.
Qed.

Lemma eqb_refl x : isNaN x = false -> eqb x x = true.
Proof. intros H. apply eqb_true. repeat split; trivial. Qed.

Lemma eqb_nan_l x y : isNaN x = true -> eqb x y = false.
Proof.
  intros H. destruct (eqb x y) eqn:E; trivial.
  apply eqb_true in E. destruct E. congruence.
Qed.

(** Two prices that are [==] behave alike in every other [==] test. *)
Lemma eqb_compat x y z : eqb x y = true -> eqb x z = eqb y z.
Proof.
  intros H. apply eqb_true in H. destruct H as (Hx & Hy & He).
  destruct (eqb x z) eqn:H1, (eqb y z) eqn:H2; trivial.
  - apply eqb_true in H1. destruct H1 as (_ & Hz & H1).
    assert (eqb y z = true).
    { apply eqb_true. repeat split; trivial. unfold FEq in *. congruence. }
    congruence.
  - apply eqb_true in H2. destruct H2 as (_ & Hz & H2).
    assert (eqb x z = true).
    { apply eqb_true. repeat split; trivial. unfold FEq in *. congruence. }
    congruence.
Qed.

Lemma Float64Less_true x y : GoSort.Float64Less x y = true <-> FLt x y.
Proof.
  unfold GoSort.Float64Less. rewrite orb_true_iff, andb_true_iff, negb_true_iff.
  rewrite ltb_true. split.
  - intros [(_ & _ & H)|[Hx Hy]]; trivial.
    apply isNaN_rank in Hx. unfold FLt. rewrite Hx.
    destruct y as [s|s| |s m e]; try discriminate; try destruct s; simpl; lia.
  - intros H. destruct (isNaN x) eqn:Hx, (isNaN y) eqn:Hy; auto.
    + apply isNaN_rank in Hx, Hy. unfold FLt in H. rewrite Hx, Hy in H.
      simpl in H. lia.
    + apply isNaN_rank in Hy. unfold FLt in H. rewrite Hy in H.
      destruct x as [s|s| |s m e]; try discriminate; try destruct s;
        simpl in H; lia.
Qed.

End F64Facts.

Import F64Facts.

Module Int64Facts.

(** Below the top of the range the wrapped sum is the integer sum. *)
Lemma add64_succ L : min_int64 <= L < max_int64 -> add64 L 1 = L + 1.
Proof.
  unfold add64, wrap, min_int64, max_int64. intros H.
  rewrite Z.mod_small; lia.
Qed.

Lemma add64_succ_max : add64 max_int64 1 = min_int64.
Proof. reflexivity. Qed.

End Int64Facts.

Module GoMapFacts.

Import GoMap.

Lemma lookup_store q p v m :
  lookup q (store p v m) = if eqb p q then Some v else lookup q m.
Proof.
  induction m as [|[k w] m IH]; simpl.
  - reflexivity.
  - destruct (eqb k p) eqn:Hkp; simpl.
    + rewrite (eqb_compat k p q Hkp). destruct (eqb p q); reflexivity.
    + rewrite IH. destruct (eqb k q) eqn:Hkq; trivial.
      destruct (eqb p q) eqn:Hpq; trivial.
      rewrite (eqb_compat k q p Hkq), (eqb_sym q p), Hpq in Hkp.
      discriminate.
Qed.

Lemma mem_store q p v m : mem q (store p v m) = eqb p q || mem q m.
Proof. unfold mem. rewrite lookup_store. destruct (eqb p q); reflexivity. Qed.

Lemma lookup_delete q p m :
  lookup q (delete p m) = if eqb p q then None else lookup q m.
Proof.
  induction m as [|[k w] m IH]; simpl.
  - destruct (eqb p q); reflexivity.
  - destruct (eqb k p) eqn:Hkp; simpl.
    + rewrite IH, (eqb_compat k p q Hkp). destruct (eqb p q); reflexivity.
    + rewrite IH. destruct (eqb k q) eqn:Hkq; trivial.
      destruct (eqb p q) eqn:Hpq; trivial.
      rewrite (eqb_compat k q p Hkq), (eqb_sym q p), Hpq in Hkp.
      discriminate.
Qed.

Lemma mem_delete q p m : mem q (delete p m) = negb (eqb p q) && mem q m.
Proof. unfold mem. rewrite lookup_delete. destruct (eqb p q); reflexivity. Qed.

Lemma lookup_compat p q m : eqb p q = true -> lookup p m = lookup q m.
Proof.
  intros E. induction m as [|[k w] m IH]; simpl; trivial.
  rewrite (eqb_sym k p), (eqb_sym k q), (eqb_compat p q k E), IH.
  reflexivity.
Qed.

Lemma mem_compat p q m : eqb p q = true -> mem p m = mem q m.
Proof. intros E. unfold mem. rewrite (lookup_compat p q m E). reflexivity. Qed.

End GoMapFacts.

(** ** Applying an update: the sequence checks *)

Section UpdateFacts.

Variable ParseFloat : string -> float64 * option NumError.

Lemma levelParses_inv lvl :
  levelParses ParseFloat lvl = true ->
  exists s0 s1 tl p q,
    lvl = s0 :: s1 :: tl /\ ParseFloat s0 = (p, None) /\ ParseFloat s1 = (q, None).
Proof.
  destruct lvl as [|s0 [|s1 tl]]; simpl; try discriminate.
  destruct (ParseFloat s0) as [p [e1|]] eqn:H0; simpl; try discriminate.
  destruct (ParseFloat s1) as [q [e2|]] eqn:H1; simpl; try discriminate.
  intros _. exists s0, s1, tl, p, q. auto.
Qed.

(** On levels that all parse, the helper of [ApplyUpdate] is the fold of
    [set] over the entries and reports no error. *)
Lemma parseLevels_all_parse levels m :
  forallb (levelParses ParseFloat) levels = true ->
  parseLevels ParseFloat levels m
  = (applyEntries ParseFloat levels m, Returned None).
Proof.
  revert m. induction levels as [|lvl rest IH]; intros m H; simpl in *.
  - reflexivity.
  - apply andb_true_iff in H. destruct H as [Hl Hr].
    destruct (levelParses_inv _ Hl) as (s0 & s1 & tl & p & q & -> & H0 & H1).
    unfold applyEntries. simpl. unfold parsedLevel. simpl.
    rewrite H0, H1. simpl. apply IH, Hr.
Qed.

Lemma ApplyUpdate_stale_eq ob upd :
  UpdateMsg.FinalID upd < add64 (lastID ob) 1 ->
  ApplyUpdate ParseFloat ob upd = (ob, Returned None).
Proof.
  intros H. unfold ApplyUpdate.
  apply Z.ltb_lt in H. rewrite H. reflexivity.
Qed.

Lemma ApplyUpdate_gap_eq ob upd :
  add64 (lastID ob) 1 < UpdateMsg.FirstID upd ->
  add64 (lastID ob) 1 <= UpdateMsg.FinalID upd ->
  ApplyUpdate ParseFloat ob upd = (ob, Returned (Some ErrGap)).
Proof.
  intros H1 H2. unfold ApplyUpdate.
  destruct (Z.ltb_spec (UpdateMsg.FinalID upd) (add64 (lastID ob) 1)); [lia|].
  apply Z.ltb_lt in H1. rewrite H1. reflexivity.
Qed.

Lemma ApplyUpdate_accepted_eq ob upd :
  acceptable ob upd ->
  ApplyUpdate ParseFloat ob upd =
    let '(bids', r1) := parseLevels ParseFloat (UpdateMsg.Bids upd) (bids ob) in
    match r1 with
    | Returned None =>
        let '(asks', r2) := parseLevels ParseFloat (UpdateMsg.Asks upd) (asks ob) in
        match r2 with
        | Returned None =>
            ({| lastID := UpdateMsg.FinalID upd; bids := bids'; asks := asks' |},
             Returned None)
        | _ => ({| lastID := lastID ob; bids := bids'; asks := asks' |}, r2)
        end
    | _ => ({| lastID := lastID ob; bids := bids'; asks := asks ob |}, r1)
    end.
Proof.
  intros [H1 H2]. unfold ApplyUpdate.
  destruct (Z.ltb_spec (UpdateMsg.FinalID upd) (add64 (lastID ob) 1)); [lia|].
  destruct (Z.ltb_spec (add64 (lastID ob) 1) (UpdateMsg.FirstID upd)); [lia|].
  simpl.
  destruct (parseLevels ParseFloat (UpdateMsg.Bids upd) (bids ob)) as [b r1].
  destruct r1 as [[e|]|]; reflexivity.
Qed.

Lemma acceptable_dec ob upd : {acceptable ob upd} + {~ acceptable ob upd}.
Proof.
  unfold acceptable.
  destruct (Z_le_dec (UpdateMsg.FirstID upd) (add64 (lastID ob) 1));
    destruct (Z_le_dec (add64 (lastID ob) 1) (UpdateMsg.FinalID upd));
    (left; lia) || (right; lia).
Qed.

Lemma ApplyUpdate_rejected ob upd :
  ~ acceptable ob upd -> fst (ApplyUpdate ParseFloat ob upd) = ob.
Proof.
  intros Hn. unfold acceptable in Hn. unfold ApplyUpdate.
  destruct (Z.ltb_spec (UpdateMsg.FinalID upd) (add64 (lastID ob) 1));
    [reflexivity|].
  destruct (Z.ltb_spec (add64 (lastID ob) 1) (UpdateMsg.FirstID upd));
    [reflexivity|]. lia.
Qed.

(** The tables after [ApplyUpdate]: untouched, or what the helper made
    of them. *)
Lemma ApplyUpdate_tables ob upd :
  let ob' := fst (ApplyUpdate ParseFloat ob upd) in
  ob' = ob
  \/ (acceptable ob upd
      /\ bids ob' = fst (parseLevels ParseFloat (UpdateMsg.Bids upd) (bids ob))
      /\ (asks ob' = asks ob
          \/ asks ob' = fst (parseLevels ParseFloat (UpdateMsg.Asks upd) (asks ob)))).
Proof.
  destruct (acceptable_dec ob upd) as [Hacc|Hn].
  - right. split; trivial. cbv zeta. rewrite (ApplyUpdate_accepted_eq _ _ Hacc).
    destruct (parseLevels ParseFloat (UpdateMsg.Bids upd) (bids ob)) as [b r1].
    destruct r1 as [[e1|]|]; simpl; auto.
    destruct (parseLevels ParseFloat (UpdateMsg.Asks upd) (asks ob)) as [a r2].
    destruct r2 as [[e2|]|]; simpl; auto.
  - left. apply ApplyUpdate_rejected, Hn.
Qed.

Lemma ApplyUpdate_applied ob upd :
  acceptable ob upd ->
  forallb (levelParses ParseFloat) (UpdateMsg.Bids upd) = true ->
  forallb (levelParses ParseFloat) (UpdateMsg.Asks upd) = true ->
  ApplyUpdate ParseFloat ob upd = (appliedBook ParseFloat ob upd, Returned None).
Proof.
  intros Hacc Hb Ha. rewrite (ApplyUpdate_accepted_eq _ _ Hacc).
  rewrite (parseLevels_all_parse _ _ Hb), (parseLevels_all_parse _ _ Ha).
  reflexivity.
Qed.

(** C1.  On a diff whose price and quantity strings all parse,
    [ApplyUpdate] applies every entry with [set] on its side and stores
    [FinalID] as the last applied sequence exactly when
    [FirstID <= lastID + 1 <= FinalID]; when the condition fails the book
    is left as it was, entries and sequence alike. *)
Theorem ApplyUpdate_acceptable_iff ob upd :
  forallb (levelParses ParseFloat) (UpdateMsg.Bids upd) = true ->
  forallb (levelParses ParseFloat) (UpdateMsg.Asks upd) = true ->
  (acceptable ob upd ->
   ApplyUpdate ParseFloat ob upd = (appliedBook ParseFloat ob upd, Returned None))
  /\ (~ acceptable ob upd -> fst (ApplyUpdate ParseFloat ob upd) = ob).
Proof.
  intros Hb Ha. split.
  - intros Hacc. apply ApplyUpdate_applied; trivial.
  - apply ApplyUpdate_rejected.
Qed.

(** C2.  A diff that starts after [lastID + 1] and does not end before
    it is answered with [ErrGap], and the book (both tables and the
    sequence) is the one before the call. *)
Theorem ApplyUpdate_gap ob upd :
  UpdateMsg.FirstID upd > add64 (lastID ob) 1 ->
  UpdateMsg.FinalID upd >= add64 (lastID ob) 1 ->
  snd (ApplyUpdate ParseFloat ob upd) = Returned (Some ErrGap)
  /\ fst (ApplyUpdate ParseFloat ob upd) = ob.
Proof.
  intros H1 H2. rewrite ApplyUpdate_gap_eq by lia. auto.
Qed.

(** C3.  A diff that ends before [lastID + 1] returns [nil] and changes
    nothing that can be observed: best bid, best ask, the top levels for
    every count and the last applied sequence, whatever its entries. *)
Theorem ApplyUpdate_stale ob upd :
  UpdateMsg.FinalID upd < add64 (lastID ob) 1 ->
  let ob' := fst (ApplyUpdate ParseFloat ob upd) in
  snd (ApplyUpdate ParseFloat ob upd) = Returned None
  /\ BestBid ob' = BestBid ob
  /\ BestAsk ob' = BestAsk ob
  /\ (forall n, GetBids ob' n = GetBids ob n)
  /\ (forall n, GetAsks ob' n = GetAsks ob n)
  /\ GetLastID ob' = GetLastID ob.
Proof.
  intros H. rewrite (ApplyUpdate_stale_eq _ _ H). simpl. auto 6.
Qed.

End UpdateFacts.

(** ** Reading the top levels *)

Lemma topLevels_negative lm n : n < 0 -> topLevels lm n = Panic.
Proof.
  intros H. unfold topLevels, min.
  destruct (Z.ltb_spec (Z.of_nat (List.length (prices lm))) n); [lia|].
  destruct (Z.ltb_spec n 0); [reflexivity|lia].
Qed.

Lemma topLevels_nonneg lm n :
  0 <= n ->
  exists l, topLevels lm n = Done l /\ Z.of_nat (List.length l) <= n.
Proof.
  intros H. unfold topLevels, min.
  destruct (Z.ltb_spec (Z.of_nat (List.length (prices lm))) n) as [Hlt|Hge].
  - destruct (Z.ltb_spec (Z.of_nat (List.length (prices lm))) 0); [lia|].
    eexists. split; [reflexivity|].
    rewrite length_map, length_firstn. lia.
  - destruct (Z.ltb_spec n 0); [lia|].
    eexists. split; [reflexivity|].
    rewrite length_map, length_firstn. lia.
Qed.

(** C10.  With a negative [maxLevels], [GetBids] and [GetAsks] panic on
    every book (the length handed to [make] is negative); with a
    non-negative one they return at most [maxLevels] levels. *)
Theorem GetBids_GetAsks_negative_panic ob n :
  (n < 0 -> GetBids ob n = Panic /\ GetAsks ob n = Panic)
  /\ (0 <= n ->
      exists lb la,
        GetBids ob n = Done lb /\ GetAsks ob n = Done la
        /\ Z.of_nat (List.length lb) <= n /\ Z.of_nat (List.length la) <= n).
Proof.
  split.
  - intros H. unfold GetBids, GetAsks. auto using topLevels_negative.
  - intros H. unfold GetBids, GetAsks.
    destruct (topLevels_nonneg (bids ob) n H) as (lb & Hb & Hlb).
    destruct (topLevels_nonneg (asks ob) n H) as (la & Ha & Hla).
    exists lb, la. auto.
Qed.

(** ** [sort.Search] and [sort.Sort] *)

Module GoSortFacts.

Import GoSort.
Local Open Scope nat_scope.

Lemma div2_between i j : i < j -> i <= Nat.div2 (i + j) < j.
Proof.
  intros H. rewrite Nat.div2_div.
  pose proof (Nat.div_mod_eq (i + j) 2) as E.
  pose proof (Nat.mod_upper_bound (i + j) 2). lia.
Qed.

(** The loop never leaves the interval it is given. *)
Lemma search_loop_range fuel f : forall i j,
  i <= j -> i <= search_loop fuel f i j <= j.
Proof.
  induction fuel as [|fuel IH]; intros i j Hij; simpl; [lia|].
  destruct (Nat.ltb_spec i j) as [Hlt|Hge]; [|lia].
  pose proof (div2_between i j Hlt) as Hh.
  destruct (f (Nat.div2 (i + j))); simpl.
  - specialize (IH i (Nat.div2 (i + j))). lia.
  - specialize (IH (Nat.div2 (i + j) + 1) j). lia.
Qed.

Lemma Search_le n f : Search n f <= n.
Proof. unfold Search. pose proof (search_loop_range n f 0 n). lia. Qed.

(** Fuel beyond the width of the interval is never used: the loop has
    ended by itself. *)
Lemma search_loop_fuel f : forall fuel fuel' i j,
  j - i <= fuel -> j - i <= fuel' ->
  search_loop fuel f i j = search_loop fuel' f i j.
Proof.
  induction fuel as [|fuel IH]; intros fuel' i j H H'.
  - destruct fuel'; simpl; trivial.
    destruct (Nat.ltb_spec i j); [lia|reflexivity].
  - simpl. destruct (Nat.ltb_spec i j) as [Hlt|Hge].
    + pose proof (div2_between i j Hlt) as Hh.
      destruct fuel' as [|fuel']; [lia|]. simpl.
      destruct (Nat.ltb_spec i j); [|lia].
      destruct (f (Nat.div2 (i + j))); simpl; apply IH; lia.
    + destruct fuel'; simpl; trivial.
      destruct (Nat.ltb_spec i j); [lia|reflexivity].
Qed.

(** On a predicate that is monotone over [0, n), the loop ends on the
    boundary between its false and its true indices. *)
Lemma search_loop_boundary n f :
  (forall a b, a <= b -> b < n -> f a = true -> f b = true) ->
  forall fuel i j,
    j - i <= fuel -> i <= j -> j <= n ->
    (forall k, k < i -> f k = false) ->
    (forall k, j <= k -> k < n -> f k = true) ->
    (forall k, k < search_loop fuel f i j -> f k = false)
    /\ (forall k, search_loop fuel f i j <= k -> k < n -> f k = true).
Proof.
  intros Hmono. induction fuel as [|fuel IH]; intros i j Hf Hij Hjn Hlo Hhi.
  - simpl. split; trivial. intros k Hk Hkn. apply Hhi; lia.
  - simpl. destruct (Nat.ltb_spec i j) as [Hlt|Hge].
    + pose proof (div2_between i j Hlt) as Hh.
      destruct (f (Nat.div2 (i + j))) eqn:Hfh; simpl.
      * apply IH; try lia; trivial.
        intros k Hk Hkn. apply (Hmono (Nat.div2 (i + j))); trivial.
      * apply IH; try lia; trivial.
        intros k Hk. destruct (f k) eqn:Hfk; trivial.
        rewrite (Hmono k (Nat.div2 (i + j))) in Hfh; try lia; trivial.
    + split; trivial. intros k Hk Hkn. apply Hhi; lia.
Qed.

Lemma Search_boundary n f :
  (forall a b, a <= b -> b < n -> f a = true -> f b = true) ->
  (forall k, k < Search n f -> f k = false)
  /\ (forall k, Search n f <= k -> k < n -> f k = true).
Proof.
  intros Hmono. unfold Search.
  apply (search_loop_boundary n f Hmono); try lia.
Qed.

End GoSortFacts.

(** ** The table: [set] keeps the prices sorted and in step with the map *)

Module TableFacts.

Import GoSort GoSortFacts.

Lemma strictlyBefore_numbers s x y :
  strictlyBefore s x y = true -> isNaN x = false /\ isNaN y = false.
Proof.
  unfold strictlyBefore, gtb. destruct s; rewrite ltb_true; tauto.
Qed.

Lemma strictlyBefore_trans s x y z :
  strictlyBefore s x y = true -> strictlyBefore s y z = true ->
  strictlyBefore s x z = true.
Proof.
  unfold strictlyBefore, gtb. destruct s; rewrite !ltb_true;
    intros (? & ? & ?) (? & ? & ?); repeat split; trivial;
    eapply FLt_trans; eauto.
Qed.

Lemma strictlyBefore_neq s x y :
  strictlyBefore s x y = true -> eqb x y = false.
Proof.
  intros H. destruct (eqb x y) eqn:E; trivial. exfalso.
  apply eqb_true in E. destruct E as (_ & _ & E).
  unfold strictlyBefore, gtb in H. destruct s; apply ltb_true in H;
    destruct H as (_ & _ & H).
  - exact (FEq_not_Lt _ _ (FEq_sym _ _ E) H).
  - exact (FEq_not_Lt _ _ E H).
Qed.

Lemma strictlyBefore_eqb_r s x y p :
  strictlyBefore s x y = true -> eqb y p = true -> strictlyBefore s x p = true.
Proof.
  intros H E. apply eqb_true in E. destruct E as (_ & Hp & E).
  unfold strictlyBefore, gtb in *. destruct s; apply ltb_true in H;
    destruct H as (H1 & H2 & H); apply ltb_true; repeat split; trivial.
  - eapply FLt_FEq_l; eauto.
  - eapply FLt_FEq_r; eauto.
Qed.

Lemma strictlyBefore_eqb_l s x y p :
  strictlyBefore s x y = true -> eqb x p = true -> strictlyBefore s p y = true.
Proof.
  intros H E. apply eqb_true in E. destruct E as (_ & Hp & E).
  unfold strictlyBefore, gtb in *. destruct s; apply ltb_true in H;
    destruct H as (H1 & H2 & H); apply ltb_true; repeat split; trivial.
  - eapply FLt_FEq_r; eauto.
  - eapply FLt_FEq_l; eauto.
Qed.

Lemma sidePred_false s x p :
  isNaN x = false -> isNaN p = false ->
  sidePred s x p = false -> strictlyBefore s x p = true.
Proof.
  intros Hx Hp H. unfold sidePred, strictlyBefore, gtb, geb in *.
  destruct s; apply ltb_true; repeat split; trivial.
  - destruct (FLt_total p x) as [?|[E|L]]; trivial; exfalso.
    + assert (leb x p = true); [|congruence].
      apply leb_true. repeat split; trivial. apply FEq_not_Lt, E.
    + assert (leb x p = true); [|congruence].
      apply leb_true. repeat split; trivial. apply FLt_asym, L.
  - destruct (FLt_total x p) as [?|[E|L]]; trivial; exfalso.
    + assert (leb p x = true); [|congruence].
      apply leb_true. repeat split; trivial. apply FEq_not_Lt, E.
    + assert (leb p x = true); [|congruence].
      apply leb_true. repeat split; trivial. apply FLt_asym, L.
Qed.

Lemma sidePred_true s x p :
  sidePred s x p = true -> strictlyBefore s x p = false.
Proof.
  intros H. destruct (strictlyBefore s x p) eqn:E; trivial. exfalso.
  unfold sidePred, strictlyBefore, gtb, geb in *.
  destruct s; apply leb_true in H; apply ltb_true in E; tauto.
Qed.

Lemma sidePred_mono s a b p :
  strictlyBefore s a b = true -> sidePred s a p = true -> sidePred s b p = true.
Proof.
  intros Hab H. unfold sidePred, strictlyBefore, gtb, geb in *.
  destruct s; apply ltb_true in Hab; apply leb_true in H; apply leb_true;
    destruct Hab as (Ha & Hb & Hab), H as (H1 & H2 & H); repeat split; trivial;
    intros L; apply H; eapply FLt_trans; eauto.
Qed.

Lemma sidePred_eqb s x p : eqb x p = true -> sidePred s x p = true.
Proof.
  intros E. apply eqb_true in E. destruct E as (Hx & Hp & E).
  unfold sidePred, geb. destruct s; apply leb_true; repeat split; trivial.
  - apply FEq_not_Lt, FEq_sym, E.
  - apply FEq_not_Lt, E.
Qed.

(** Past the boundary a price that is not [==] to [p] comes after it. *)
Lemma sidePred_after s x p :
  sidePred s x p = true -> eqb x p = false -> strictlyBefore s p x = true.
Proof.
  intros H E. unfold sidePred, strictlyBefore, gtb, geb in *.
  destruct s; apply leb_true in H; destruct H as (Hx & Hp & H);
    apply ltb_true; repeat split; trivial.
  - destruct (FLt_total x p) as [?|[E'|L]]; trivial; exfalso.
    + assert (eqb x p = true); [|congruence]. apply eqb_true. auto.
    + contradiction.
  - destruct (FLt_total p x) as [?|[E'|L]]; trivial; exfalso.
    + assert (eqb x p = true); [|congruence].
      apply eqb_true. auto using FEq_sym.
    + contradiction.
Qed.

Local Open Scope nat_scope.

Section SortedLists.

Variable R : float64 -> float64 -> Prop.

Lemma SSorted_insert l1 l2 p :
  StronglySorted R (l1 ++ l2) ->
  Forall (fun x => R x p) l1 -> Forall (R p) l2 ->
  StronglySorted R (l1 ++ p :: l2).
Proof.
  induction l1 as [|a l1 IH]; simpl; intros Hs H1 H2.
  - constructor; trivial.
  - inversion Hs as [|? ? Hs' Ha]; subst.
    inversion H1 as [|? ? Hap H1']; subst.
    constructor; [apply IH; trivial|].
    apply Forall_app in Ha. destruct Ha as [Ha1 Ha2].
    apply Forall_app. split; trivial. constructor; trivial.
Qed.

Lemma SSorted_middle l1 x l2 :
  StronglySorted R (l1 ++ x :: l2) ->
  Forall (fun y => R y x) l1 /\ Forall (R x) l2
  /\ StronglySorted R (l1 ++ l2).
Proof.
  induction l1 as [|a l1 IH]; simpl; intros Hs.
  - inversion Hs; subst. auto.
  - inversion Hs as [|? ? Hs' Ha]; subst.
    destruct (IH Hs') as (H1 & H2 & H3).
    apply Forall_app in Ha. destruct Ha as [Ha1 Ha2].
    inversion Ha2; subst.
    repeat split; trivial.
    + constructor; trivial.
    + constructor; trivial. apply Forall_app. auto.
Qed.

Lemma SSorted_nth l d : StronglySorted R l ->
  forall a b, a < b -> b < List.length l -> R (nth a l d) (nth b l d).
Proof.
  induction 1 as [|x l Hs IH Hx]; intros a b Hab Hb; simpl in Hb; [lia|].
  destruct b as [|b]; [lia|]. destruct a as [|a]; simpl.
  - rewrite Forall_forall in Hx. apply Hx, nth_In. lia.
  - apply IH; lia.
Qed.

End SortedLists.

Lemma split_at_nth (l : list float64) r d :
  r < List.length l -> l = firstn r l ++ nth r l d :: skipn (r + 1) l.
Proof.
  revert r. induction l as [|x l IH]; intros r Hr; simpl in Hr; [lia|].
  destruct r as [|r]; simpl; trivial.
  f_equal. apply IH. lia.
Qed.

Lemma Forall_firstn_nth (P : float64 -> Prop) l r d :
  (forall k, k < r -> k < List.length l -> P (nth k l d)) -> Forall P (firstn r l).
Proof.
  revert r. induction l as [|x l IH]; intros r H.
  - rewrite firstn_nil. constructor.
  - destruct r as [|r]; simpl; constructor.
    + apply (H 0); simpl; lia.
    + apply IH. intros k Hk Hl. apply (H (S k)); simpl; lia.
Qed.

Lemma Forall_skipn_nth (P : float64 -> Prop) l r d :
  (forall k, r <= k -> k < List.length l -> P (nth k l d)) -> Forall P (skipn r l).
Proof.
  revert r. induction l as [|x l IH]; intros r H.
  - rewrite skipn_nil. constructor.
  - destruct r as [|r]; simpl.
    + constructor.
      * apply (H 0); simpl; lia.
      * apply (IH 0). intros k Hk Hl. apply (H (S k)); simpl; lia.
    + apply IH. intros k Hk Hl. apply (H (S k)); simpl; lia.
Qed.

Lemma existsb_insert_at (f : float64 -> bool) l r p :
  existsb f (firstn r l ++ p :: skipn r l) = f p || existsb f l.
Proof.
  rewrite <- (firstn_skipn r l) at 3. rewrite !existsb_app. simpl.
  destruct (existsb f (firstn r l)), (f p); reflexivity.
Qed.

Lemma existsb_nth (f : float64 -> bool) l d :
  existsb f l = true -> exists k, k < List.length l /\ f (nth k l d) = true.
Proof.
  intros H. apply existsb_exists in H. destruct H as (x & Hin & Hx).
  destruct (In_nth l x d Hin) as (k & Hk & E). exists k. subst. auto.
Qed.

Lemma searchPos_eq lm p :
  searchPos lm p
  = Search (List.length (prices lm))
      (fun i => sidePred (isBid lm) (nth i (prices lm) zero) p).
Proof. unfold searchPos, sidePred. destruct (isBid lm); reflexivity. Qed.

Lemma searchPos_le lm p : searchPos lm p <= List.length (prices lm).
Proof. rewrite searchPos_eq. apply Search_le. Qed.

(** On a sorted table the search ends on the boundary between the prices
    strictly before [p] and the others. *)
Lemma searchPos_boundary lm p :
  sortedPrices lm ->
  (forall k, k < searchPos lm p ->
     sidePred (isBid lm) (nth k (prices lm) zero) p = false)
  /\ (forall k, searchPos lm p <= k -> k < List.length (prices lm) ->
     sidePred (isBid lm) (nth k (prices lm) zero) p = true).
Proof.
  intros Hs. rewrite searchPos_eq.
  apply (Search_boundary (List.length (prices lm))
           (fun i => sidePred (isBid lm) (nth i (prices lm) zero) p)).
  intros a b Hab Hb Ha.
  destruct (Nat.eq_dec a b) as [->|Hne]; trivial.
  eapply sidePred_mono; [|exact Ha].
  apply (SSorted_nth _ _ zero Hs); lia.
Qed.

Lemma insertPrice_sorted lm p :
  Forall (fun x => isNaN x = false) (prices lm) -> sortedPrices lm ->
  isNaN p = false -> existsb (eqb p) (prices lm) = false ->
  sortedPrices (insertPrice lm p).
Proof.
  intros Hn Hs Hp Hex. unfold sortedPrices, insertPrice. simpl.
  destruct (searchPos_boundary lm p Hs) as [Hlo Hhi].
  apply SSorted_insert.
  - rewrite firstn_skipn. exact Hs.
  - apply (Forall_firstn_nth _ _ _ zero). intros k Hk Hl.
    apply sidePred_false; auto.
    rewrite Forall_forall in Hn. apply Hn, nth_In, Hl.
  - apply (Forall_skipn_nth _ _ _ zero). intros k Hk Hl.
    apply sidePred_after; auto.
    destruct (eqb (nth k (prices lm) zero) p) eqn:E; trivial.
    assert (existsb (eqb p) (prices lm) = true); [|congruence].
    apply existsb_exists. exists (nth k (prices lm) zero).
    split; [apply nth_In, Hl|]. rewrite eqb_sym. exact E.
Qed.

(** On a sorted table [removePrice] finds a listed price and cuts it out. *)
Lemma removePrice_found lm p :
  sortedPrices lm -> existsb (eqb p) (prices lm) = true ->
  exists l1 x l2,
    prices lm = l1 ++ x :: l2 /\ eqb x p = true
    /\ removePrice lm p
       = {| isBid := isBid lm; prices := l1 ++ l2; qtyAt := qtyAt lm |}.
Proof.
  intros Hs Hex.
  destruct (existsb_nth _ _ zero Hex) as (k & Hk & Ek).
  rewrite eqb_sym in Ek.
  destruct (searchPos_boundary lm p Hs) as [Hlo Hhi].
  pose proof (searchPos_le lm p) as Hle.
  assert (Hrk : searchPos lm p = k).
  { destruct (Nat.lt_total (searchPos lm p) k) as [Hlt|[E|Hgt]]; trivial.
    - exfalso.
      pose proof (SSorted_nth _ _ zero Hs _ _ Hlt Hk) as Hb.
      pose proof (strictlyBefore_eqb_r _ _ _ _ Hb Ek) as Hb'.
      rewrite (sidePred_true _ _ _ (Hhi _ (Nat.le_refl _) ltac:(lia))) in Hb'.
      discriminate.
    - exfalso. pose proof (Hlo k Hgt) as Hf.
      rewrite (sidePred_eqb _ _ _ Ek) in Hf. discriminate. }
  exists (firstn k (prices lm)), (nth k (prices lm) zero),
         (skipn (k + 1) (prices lm)).
  split; [apply split_at_nth, Hk|]. split; trivial.
  unfold removePrice. rewrite Hrk.
  destruct (Nat.ltb_spec k (List.length (prices lm))); [|lia].
  rewrite Ek. reflexivity.
Qed.

Lemma isBid_set lm p q : isBid (set lm p q) = isBid lm.
Proof.
  unfold set, removePrice, insertPrice, withQtyAt.
  destruct (eqb q zero), (GoMap.mem p (qtyAt lm)); simpl; trivial.
  match goal with |- context [if ?c then _ else _] => destruct c end;
    reflexivity.
Qed.

(** [set] at a price that is a number keeps the three parts of the table
    invariant. *)
Lemma set_tableInv lm p q :
  tableInv lm -> isNaN p = false -> tableInv (set lm p q).
Proof.
  intros [Hn Hs Hk] Hp. unfold set.
  destruct (eqb q zero) eqn:Hq.
  - destruct (GoMap.mem p (qtyAt lm)) eqn:Hm; [|constructor; trivial].
    assert (Hs' : sortedPrices (withQtyAt lm (GoMap.delete p (qtyAt lm))))
      by exact Hs.
    assert (Hex : existsb (eqb p)
                    (prices (withQtyAt lm (GoMap.delete p (qtyAt lm)))) = true)
      by (simpl; rewrite Hk; exact Hm).
    destruct (removePrice_found _ p Hs' Hex) as (l1 & x & l2 & El & Ex & ->).
    simpl in El.
    unfold sortedPrices in Hs. rewrite El in Hs, Hn.
    destruct (SSorted_middle _ _ _ _ Hs) as (H1 & H2 & H3).
    constructor; simpl.
    + apply Forall_app in Hn. destruct Hn as [Hn1 Hn2].
      inversion Hn2; subst. apply Forall_app. auto.
    + exact H3.
    + intros r. simpl. rewrite GoMapFacts.mem_delete, <- Hk, El.
      rewrite !existsb_app. simpl.
      destruct (eqb p r) eqn:Epr; simpl.
      * assert (Exr : eqb x r = true)
          by (rewrite (eqb_compat x p r Ex); exact Epr).
        assert (E1 : existsb (eqb r) l1 = false).
        { destruct (existsb (eqb r) l1) eqn:E; trivial. exfalso.
          apply existsb_exists in E. destruct E as (y & Hy & Ey).
          rewrite Forall_forall in H1.
          pose proof (strictlyBefore_neq _ _ _ (H1 y Hy)) as Hne.
          rewrite eqb_sym, (eqb_compat x r y Exr) in Hne. congruence. }
        assert (E2 : existsb (eqb r) l2 = false).
        { destruct (existsb (eqb r) l2) eqn:E; trivial. exfalso.
          apply existsb_exists in E. destruct E as (y & Hy & Ey).
          rewrite Forall_forall in H2.
          pose proof (strictlyBefore_neq _ _ _ (H2 y Hy)) as Hne.
          rewrite (eqb_compat x r y Exr) in Hne. congruence. }
        rewrite E1, E2. reflexivity.
      * assert (Erx : eqb r x = false).
        { rewrite eqb_sym, (eqb_compat x p r Ex). exact Epr. }
        rewrite Erx. reflexivity.
  - destruct (GoMap.mem p (qtyAt lm)) eqn:Hm; simpl.
    + constructor; trivial.
      intros r. simpl. rewrite GoMapFacts.mem_store, Hk.
      destruct (eqb p r) eqn:Epr; trivial. simpl.
      rewrite <- (GoMapFacts.mem_compat p r _ Epr). exact Hm.
    + assert (Hex : existsb (eqb p) (prices lm) = false)
        by (rewrite Hk; exact Hm).
      constructor.
      * simpl. rewrite <- (firstn_skipn (searchPos
          (withQtyAt lm (GoMap.store p q (qtyAt lm))) p) (prices lm)) in Hn.
        apply Forall_app in Hn. destruct Hn as [Hn1 Hn2].
        apply Forall_app. split; trivial. constructor; trivial.
      * apply insertPrice_sorted; trivial.
      * intros r. simpl. rewrite existsb_insert_at, GoMapFacts.mem_store, Hk.
        rewrite (eqb_sym r p). reflexivity.
Qed.

End TableFacts.

(** ** [sort.Sort] sorts *)

Module SortFacts.

Import GoSort.

Lemma insertBy_perm less x l : Permutation (insertBy less x l) (x :: l).
Proof.
  induction l as [|y l IH]; simpl; [reflexivity|].
  destruct (less x y); [reflexivity|].
  rewrite IH. apply perm_swap.
Qed.

Lemma Sort_perm less l : Permutation (Sort less l) l.
Proof.
  unfold Sort.
  enough (H : forall acc,
             Permutation (fold_left (fun a x => insertBy less x a) l acc)
                         (acc ++ l)) by apply (H []).
  induction l as [|x l IH]; intros acc; simpl.
  - rewrite app_nil_r. reflexivity.
  - rewrite IH, insertBy_perm. apply Permutation_middle.
Qed.

Section Sorted.

Variable less : float64 -> float64 -> bool.
Variable LtR : float64 -> float64 -> Prop.
Hypothesis less_true : forall x y, less x y = true <-> LtR x y.
Hypothesis LtR_trans : forall x y z, LtR x y -> LtR y z -> LtR x z.
Hypothesis LtR_asym : forall x y, LtR x y -> ~ LtR y x.

Lemma insertBy_sorted x l :
  StronglySorted (noInversion LtR) l -> StronglySorted (noInversion LtR) (insertBy less x l).
Proof.
  induction 1 as [|y l Hs IH Hy]; simpl.
  - repeat constructor.
  - destruct (less x y) eqn:E.
    + apply less_true in E. constructor; [constructor; trivial|].
      constructor; [apply LtR_asym, E|].
      eapply Forall_impl; [|exact Hy]. intros z Hz Hzx. apply Hz.
      eapply LtR_trans; eauto.
    + constructor; trivial.
      eapply Permutation_Forall;
        [apply Permutation_sym, insertBy_perm|].
      constructor; trivial.
      intros Hxy. apply less_true in Hxy. congruence.
Qed.

Lemma Sort_sorted l : StronglySorted (noInversion LtR) (Sort less l).
Proof.
  unfold Sort.
  enough (H : forall acc, StronglySorted (noInversion LtR) acc ->
             StronglySorted (noInversion LtR)
               (fold_left (fun a x => insertBy less x a) l acc))
    by (apply H; constructor).
  induction l as [|x l IH]; intros acc Hacc; simpl; trivial.
  apply IH, insertBy_sorted, Hacc.
Qed.

End Sorted.

Lemma Float64s_sorted l :
  StronglySorted (fun x y => ~ FLt y x) (Float64s l).
Proof.
  apply (Sort_sorted Float64Less FLt).
  - apply Float64Less_true.
  - apply FLt_trans.
  - apply FLt_asym.
Qed.

Lemma Float64sReverse_sorted l :
  StronglySorted (fun x y => ~ FLt x y) (Float64sReverse l).
Proof.
  apply (Sort_sorted (ReverseLess Float64Less) (fun x y => FLt y x)).
  - intros x y. apply Float64Less_true.
  - intros x y z H1 H2. eapply FLt_trans; eauto.
  - intros x y. apply FLt_asym.
Qed.

Lemma existsb_perm (f : float64 -> bool) l l' :
  Permutation l l' -> existsb f l = existsb f l'.
Proof.
  induction 1; simpl; trivial.
  - congruence.
  - destruct (f x), (f y); reflexivity.
  - congruence.
Qed.

(** Distinct numbers have distinct ranks. *)
Lemma distinctb_ranks l :
  Forall (fun p => isNaN p = false) l -> distinctb l = true ->
  NoDup (map rank l).
Proof.
  induction l as [|x l IH]; simpl; intros Hn H; constructor.
  - apply andb_true_iff in H. destruct H as [H _].
    apply negb_true_iff in H. inversion Hn as [|? ? Hx Hl]; subst.
    intros Hin. apply in_map_iff in Hin. destruct Hin as (y & Ey & Hy).
    assert (existsb (eqb x) l = true); [|congruence].
    apply existsb_exists. exists y. split; trivial.
    apply eqb_true. repeat split; trivial.
    + rewrite Forall_forall in Hl. auto.
    + unfold FEq. congruence.
  - inversion Hn; subst. apply andb_true_iff in H. apply IH; tauto.
Qed.

(** A sorted list of numbers with distinct ranks is strictly sorted. *)
Lemma strictly_sorted (R : float64 -> float64 -> Prop) s l :
  (forall x y, R x y -> isNaN x = false -> isNaN y = false ->
               rank x <> rank y -> strictlyBefore s x y = true) ->
  Forall (fun p => isNaN p = false) l -> NoDup (map rank l) ->
  StronglySorted R l ->
  StronglySorted (fun x y => strictlyBefore s x y = true) l.
Proof.
  intros HR Hn Hd Hs. induction Hs as [|x l Hs IH Hx]; constructor.
  - inversion Hn; inversion Hd; subst. apply IH; trivial.
  - inversion Hn as [|? ? Hnx Hnl]; inversion Hd as [|? ? Hdx Hdl]; subst.
    rewrite Forall_forall in *. intros y Hy. apply HR; auto.
    intros E. apply Hdx. rewrite E. apply in_map, Hy.
Qed.

End SortFacts.

(** ** Loading a snapshot *)

Section SnapshotFacts.

Variable ParseFloat : string -> float64 * option NumError.

Import TableFacts SortFacts.

Lemma loadQty_app e1 e2 m : loadQty (e1 ++ e2) m = loadQty e2 (loadQty e1 m).
Proof. apply fold_left_app. Qed.

Lemma positiveEntries_cons s0 s1 tl rest p q e1 e2 :
  ParseFloat s0 = (p, e1) -> ParseFloat s1 = (q, e2) ->
  positiveEntries ParseFloat ((s0 :: s1 :: tl) :: rest)
  = if gtb q zero then (p, q) :: positiveEntries ParseFloat rest
    else positiveEntries ParseFloat rest.
Proof.
  intros H0 H1. unfold positiveEntries, parsedLevel. simpl.
  rewrite H0, H1. reflexivity.
Qed.

(** On levels that all parse, the loop of [ApplySnapshot] stores the
    positive entries and collects their prices, in order. *)
Lemma snapshotLoop_all_parse levels : forall m acc,
  forallb (levelParses ParseFloat) levels = true ->
  snapshotLoop ParseFloat levels m acc
  = (loadQty (positiveEntries ParseFloat levels) m,
     acc ++ map fst (positiveEntries ParseFloat levels), Completed).
Proof.
  induction levels as [|lvl rest IH]; intros m acc H.
  - simpl. rewrite app_nil_r. reflexivity.
  - simpl in H. apply andb_true_iff in H. destruct H as [Hl Hr].
    destruct (levelParses_inv _ _ Hl) as (s0 & s1 & tl & p & q & -> & H0 & H1).
    rewrite (positiveEntries_cons _ _ _ _ _ _ _ _ H0 H1).
    cbn [snapshotLoop]. rewrite H0, H1. cbn [isSome orb].
    destruct (gtb q zero) eqn:Hq.
    + rewrite IH by exact Hr. cbn [map fst loadQty fold_left snd].
      rewrite <- app_assoc. reflexivity.
    + apply IH, Hr.
Qed.

(** A snapshot whose levels all parse is loaded by [bulkLoad] on each
    side, and its sequence number is stored. *)
Lemma ApplySnapshot_all_parse ob snap :
  forallb (levelParses ParseFloat) (SnapshotMsg.Bids snap) = true ->
  forallb (levelParses ParseFloat) (SnapshotMsg.Asks snap) = true ->
  ApplySnapshot ParseFloat ob snap
  = ({| lastID := SnapshotMsg.LastUpdateID snap;
        bids := bulkLoad true (positiveEntries ParseFloat (SnapshotMsg.Bids snap));
        asks := bulkLoad false (positiveEntries ParseFloat (SnapshotMsg.Asks snap)) |},
     Returned None).
Proof.
  intros Hb Ha. unfold ApplySnapshot.
  rewrite (snapshotLoop_all_parse _ _ _ Hb), (snapshotLoop_all_parse _ _ _ Ha).
  reflexivity.
Qed.

Lemma mem_loadQty p entries : forall m,
  GoMap.mem p (loadQty entries m)
  = existsb (eqb p) (map fst entries) || GoMap.mem p m.
Proof.
  induction entries as [|[k v] entries IH]; intros m; simpl; trivial.
  unfold loadQty in *. simpl. rewrite IH, GoMapFacts.mem_store.
  rewrite (eqb_sym p k).
  destruct (eqb k p), (existsb (eqb p) (map fst entries)); reflexivity.
Qed.

(** [bulkLoad] of entries whose prices are distinct numbers builds a
    table that satisfies the invariant. *)
Lemma bulkLoad_tableInv s entries :
  forallb (fun p => negb (isNaN p)) (map fst entries) = true ->
  distinctb (map fst entries) = true ->
  tableInv (bulkLoad s entries).
Proof.
  intros Hn Hd.
  assert (Hn' : Forall (fun p => isNaN p = false) (map fst entries)).
  { apply Forall_forall. intros x Hx.
    rewrite forallb_forall in Hn. apply negb_true_iff, Hn, Hx. }
  pose proof (distinctb_ranks _ Hn' Hd) as Hr.
  assert (Hperm : Permutation (prices (bulkLoad s entries)) (map fst entries)).
  { simpl. destruct s; apply Sort_perm. }
  constructor.
  - eapply Permutation_Forall; [apply Permutation_sym, Hperm|exact Hn'].
  - unfold sortedPrices.
    assert (Hn2 : Forall (fun p => isNaN p = false) (prices (bulkLoad s entries)))
      by (eapply Permutation_Forall; [apply Permutation_sym, Hperm|exact Hn']).
    assert (Hr2 : NoDup (map rank (prices (bulkLoad s entries)))).
    { eapply Permutation_NoDup; [|exact Hr].
      apply Permutation_map, Permutation_sym, Hperm. }
    destruct s; simpl in *.
    + apply (strictly_sorted (fun x y => ~ FLt x y) true); trivial;
        [|apply Float64sReverse_sorted].
      intros x y Hxy Hx Hy Hne. unfold strictlyBefore, gtb.
      apply ltb_true. repeat split; trivial.
      destruct (FLt_total x y) as [?|[E|?]]; trivial; [tauto|].
      unfold FEq in E. congruence.
    + apply (strictly_sorted (fun x y => ~ FLt y x) false); trivial;
        [|apply Float64s_sorted].
      intros x y Hxy Hx Hy Hne. unfold strictlyBefore.
      apply ltb_true. repeat split; trivial.
      destruct (FLt_total x y) as [?|[E|?]]; trivial; [|tauto].
      unfold FEq in E. congruence.
  - intros p. rewrite (existsb_perm _ _ _ Hperm). simpl.
    rewrite mem_loadQty. symmetry. apply orb_false_r.
Qed.

Lemma parseLevels_tableInv levels : forall m,
  forallb (priceIsNumber ParseFloat) levels = true ->
  tableInv m -> tableInv (fst (parseLevels ParseFloat levels m)).
Proof.
  induction levels as [|lvl rest IH]; intros m H Hm; simpl in *; trivial.
  apply andb_true_iff in H. destruct H as [Hl Hr].
  destruct lvl as [|s0 [|s1 tl]]; trivial.
  simpl in Hl.
  destruct (ParseFloat s0) as [p e1], (ParseFloat s1) as [q e2]. simpl in Hl.
  destruct (isSome e1 || isSome e2); trivial.
  apply IH; trivial. apply set_tableInv; trivial.
  apply negb_true_iff, Hl.
Qed.

Lemma New_tableInv : tableInv (bids New) /\ tableInv (asks New).
Proof.
  split; constructor; simpl; try constructor; intros p; reflexivity.
Qed.

Lemma ApplyUpdate_tableInv ob upd :
  numericUpdate ParseFloat upd = true ->
  tableInv (bids ob) -> tableInv (asks ob) ->
  tableInv (bids (fst (ApplyUpdate ParseFloat ob upd)))
  /\ tableInv (asks (fst (ApplyUpdate ParseFloat ob upd))).
Proof.
  intros H Hb Ha. apply andb_true_iff in H. destruct H as [H1 H2].
  pose proof (parseLevels_tableInv _ _ H1 Hb) as Hb'.
  pose proof (parseLevels_tableInv _ _ H2 Ha) as Ha'.
  destruct (ApplyUpdate_tables ParseFloat ob upd) as [->|(_ & -> & [->| ->])];
    auto.
Qed.

Lemma cleanSide_inv levels :
  cleanSide ParseFloat levels = true ->
  forallb (levelParses ParseFloat) levels = true
  /\ tableInv (bulkLoad true (positiveEntries ParseFloat levels))
  /\ tableInv (bulkLoad false (positiveEntries ParseFloat levels)).
Proof.
  unfold cleanSide. rewrite !andb_true_iff. intros [[H1 H2] H3].
  auto using bulkLoad_tableInv.
Qed.

End SnapshotFacts.

(** ** Invariants I1 and I2 of the reachable books *)

Section Reachability.

Variable ParseFloat : string -> float64 * option NumError.

Import TableFacts.

Lemma isBid_parseLevels levels : forall m,
  isBid (fst (parseLevels ParseFloat levels m)) = isBid m.
Proof.
  induction levels as [|lvl rest IH]; intros m; simpl; trivial.
  destruct lvl as [|s0 [|s1 tl]]; trivial.
  destruct (ParseFloat s0) as [p e1], (ParseFloat s1) as [q e2].
  destruct (isSome e1 || isSome e2); trivial.
  rewrite IH. apply isBid_set.
Qed.

Lemma isBid_ApplySnapshot ob snap :
  isBid (bids (fst (ApplySnapshot ParseFloat ob snap))) = true
  /\ isBid (asks (fst (ApplySnapshot ParseFloat ob snap))) = false.
Proof.
  unfold ApplySnapshot.
  destruct (snapshotLoop ParseFloat (SnapshotMsg.Bids snap) GoMap.empty [])
    as [[bq bp] [| |]]; simpl; auto.
  destruct (snapshotLoop ParseFloat (SnapshotMsg.Asks snap) GoMap.empty [])
    as [[aq ap] [| |]]; simpl; auto.
Qed.

(** The bid table is the bid side and the ask table the ask side, in
    every reachable book. *)
Lemma reachable_sides ob :
  reachable ParseFloat ob -> isBid (bids ob) = true /\ isBid (asks ob) = false.
Proof.
  induction 1 as [|ob snap _ _|ob upd _ [IHb IHa]].
  - auto.
  - apply isBid_ApplySnapshot.
  - destruct (ApplyUpdate_tables ParseFloat ob upd) as [->|(_ & -> & [->| ->])];
      rewrite ?isBid_parseLevels; auto.
Qed.

Lemma cleanlyReachable_reachable ob :
  cleanlyReachable ParseFloat ob -> reachable ParseFloat ob.
Proof. induction 1; constructor; trivial. Qed.

Lemma cleanlyReachable_tableInv ob :
  cleanlyReachable ParseFloat ob -> tableInv (bids ob) /\ tableInv (asks ob).
Proof.
  induction 1 as [|ob snap _ _ Hc|ob upd _ [IHb IHa] Hn].
  - apply New_tableInv.
  - unfold cleanSnapshot in Hc. apply andb_true_iff in Hc.
    destruct Hc as [Hb Ha].
    apply cleanSide_inv in Hb, Ha.
    destruct Hb as (Hb & Hb' & _), Ha as (Ha & _ & Ha').
    rewrite (ApplySnapshot_all_parse _ _ _ Hb Ha). auto.
  - apply ApplyUpdate_tableInv; trivial.
Qed.

(** C6 (amended).  In every book reached from [New] through snapshots
    whose levels all parse and whose positive-quantity prices are, on
    each side, numbers no two of which are equal, and through updates
    whose prices are numbers, the bid prices are strictly descending,
    the ask prices strictly ascending (so no price is listed twice), and
    on each side a price is listed exactly when it is a key of the
    quantity map. *)
Theorem cleanlyReachable_sorted ob :
  cleanlyReachable ParseFloat ob -> bookSorted ob.
Proof.
  intros H.
  destruct (cleanlyReachable_tableInv ob H) as [[_ Hb Hkb] [_ Ha Hka]].
  destruct (reachable_sides ob (cleanlyReachable_reachable ob H)) as [Sb Sa].
  unfold sortedPrices in Hb, Ha. rewrite Sb in Hb. rewrite Sa in Ha.
  repeat split; trivial.
Qed.

End Reachability.

(** ** Crossed books *)

Section Crossing.

Variable ParseFloat : string -> float64 * option NumError.

Import TableFacts SortFacts.

Lemma In_firstn (x : float64) n l : In x (firstn n l) -> In x l.
Proof.
  intros H. rewrite <- (firstn_skipn n l). apply in_or_app. auto.
Qed.

Lemma In_skipn (x : float64) n l : In x (skipn n l) -> In x l.
Proof.
  intros H. rewrite <- (firstn_skipn n l). apply in_or_app. auto.
Qed.

(** [set] lists no price but the old ones and, for a quantity other than
    zero, its own. *)
Lemma In_prices_set x lm p q :
  In x (prices (set lm p q)) ->
  In x (prices lm) \/ (x = p /\ eqb q zero = false).
Proof.
  unfold set. destruct (eqb q zero) eqn:Hq.
  - destruct (GoMap.mem p (qtyAt lm)); auto.
    unfold removePrice.
    match goal with |- context [if ?c then _ else _] => destruct c end;
      simpl; auto.
    intros H. apply in_app_or in H. destruct H as [H|H].
    + left. eapply In_firstn, H.
    + left. eapply In_skipn, H.
  - destruct (GoMap.mem p (qtyAt lm)); simpl; auto.
    intros H. apply in_app_or in H. destruct H as [H|[H|H]]; auto.
    + left. eapply In_firstn, H.
    + left. eapply In_skipn, H.
Qed.

Lemma addedPrices_cons s0 s1 tl rest p q e1 e2 :
  ParseFloat s0 = (p, e1) -> ParseFloat s1 = (q, e2) ->
  addedPrices ParseFloat ((s0 :: s1 :: tl) :: rest)
  = if eqb q zero then addedPrices ParseFloat rest
    else p :: addedPrices ParseFloat rest.
Proof.
  intros H0 H1. unfold addedPrices, parsedLevel. simpl.
  rewrite H0, H1. simpl. destruct (eqb q zero); reflexivity.
Qed.

Lemma In_prices_parseLevels x levels : forall m,
  In x (prices (fst (parseLevels ParseFloat levels m))) ->
  In x (prices m) \/ In x (addedPrices ParseFloat levels).
Proof.
  induction levels as [|lvl rest IH]; intros m H; simpl in H; auto.
  destruct lvl as [|s0 [|s1 tl]]; auto.
  destruct (ParseFloat s0) as [p e1] eqn:H0.
  destruct (ParseFloat s1) as [q e2] eqn:H1.
  rewrite (addedPrices_cons _ _ _ _ _ _ _ _ H0 H1).
  destruct (isSome e1 || isSome e2); auto.
  destruct (IH _ H) as [Hs|Hr].
  - destruct (In_prices_set _ _ _ _ Hs) as [?|[-> ->]]; simpl; auto.
  - destruct (eqb q zero); simpl; auto.
Qed.

Lemma allBelow_spec bs as_ b a :
  allBelow bs as_ = true -> In b bs -> In a as_ -> ltb b a = true.
Proof.
  unfold allBelow. intros H Hb Ha.
  rewrite forallb_forall in H. specialize (H b Hb).
  rewrite forallb_forall in H. exact (H a Ha).
Qed.

(** The loop of [ApplySnapshot] runs to its end only on levels that all
    parse. *)
Lemma snapshotLoop_Completed levels : forall m acc m' acc',
  snapshotLoop ParseFloat levels m acc = (m', acc', Completed) ->
  forallb (levelParses ParseFloat) levels = true.
Proof.
  induction levels as [|lvl rest IH]; intros m acc m' acc' H; trivial.
  cbn [snapshotLoop] in H. cbn [forallb levelParses].
  destruct lvl as [|s0 [|s1 tl]]; try discriminate.
  destruct (ParseFloat s0) as [p [e1|]] eqn:H0; simpl in *; try discriminate;
    destruct (ParseFloat s1) as [q [e2|]] eqn:H1; simpl in *;
    try discriminate.
  rewrite H0. simpl. destruct (gtb q zero); eapply IH; eauto.
Qed.

Lemma ApplySnapshot_uncrossed ob snap :
  uncrossedSnapshot ParseFloat snap = true ->
  uncrossed (fst (ApplySnapshot ParseFloat ob snap)).
Proof.
  intros Hu b a. unfold ApplySnapshot.
  destruct (snapshotLoop ParseFloat (SnapshotMsg.Bids snap) GoMap.empty [])
    as [[bq bp] bend] eqn:Eb.
  destruct bend; simpl; try tauto.
  destruct (snapshotLoop ParseFloat (SnapshotMsg.Asks snap) GoMap.empty [])
    as [[aq ap] aend] eqn:Ea.
  destruct aend; simpl; try tauto.
  pose proof (snapshotLoop_Completed _ _ _ _ _ Eb) as Pb.
  pose proof (snapshotLoop_Completed _ _ _ _ _ Ea) as Pa.
  rewrite (snapshotLoop_all_parse _ _ _ _ Pb) in Eb.
  rewrite (snapshotLoop_all_parse _ _ _ _ Pa) in Ea.
  inversion Eb; inversion Ea; subst. simpl. intros Hb Ha.
  apply (allBelow_spec _ _ _ _ Hu).
  - eapply Permutation_in; [apply Sort_perm|exact Hb].
  - eapply Permutation_in; [apply Sort_perm|exact Ha].
Qed.

Lemma ApplyUpdate_uncrossed ob upd :
  uncrossed ob -> uncrossedUpdate ParseFloat ob upd = true ->
  uncrossed (fst (ApplyUpdate ParseFloat ob upd)).
Proof.
  intros Hob Hu. unfold uncrossedUpdate in Hu.
  apply andb_true_iff in Hu. destruct Hu as [H1 H2].
  intros b a Hb Ha.
  assert (Hb' : In b (prices (bids ob))
                \/ In b (addedPrices ParseFloat (UpdateMsg.Bids upd))).
  { destruct (ApplyUpdate_tables ParseFloat ob upd) as [E|(_ & E & _)];
      rewrite E in Hb; auto using In_prices_parseLevels. }
  assert (Ha' : In a (prices (asks ob))
                \/ In a (addedPrices ParseFloat (UpdateMsg.Asks upd))).
  { destruct (ApplyUpdate_tables ParseFloat ob upd) as [E|(_ & _ & [E|E])];
      rewrite E in Ha; auto using In_prices_parseLevels. }
  destruct Hb' as [Hb'|Hb'], Ha' as [Ha'|Ha'].
  - apply Hob; trivial.
  - apply (allBelow_spec _ _ _ _ H2); trivial.
  - apply (allBelow_spec _ _ _ _ H1); trivial. apply in_or_app. auto.
  - apply (allBelow_spec _ _ _ _ H1); trivial. apply in_or_app. auto.
Qed.

Lemma uncrossedFeed_uncrossed ob :
  uncrossedFeed ParseFloat ob -> uncrossed ob.
Proof.
  induction 1 as [|ob snap _ _ Hs|ob upd _ IH Hu].
  - intros b a [].
  - apply ApplySnapshot_uncrossed, Hs.
  - apply ApplyUpdate_uncrossed; trivial.
Qed.

Lemma best_In lm p q : best lm = (p, q, true) -> In p (prices lm).
Proof.
  unfold best. destruct (prices lm) as [|x l]; [discriminate|].
  intros H. inversion H. simpl. auto.
Qed.

(** C7 (amended).  The book makes no crossed-book check of its own.  In
    every book reached from [New] through snapshots whose
    positive-quantity bid prices are below their positive-quantity ask
    prices, and through updates whose non-zero-quantity bid prices are
    below the ask prices of the book and of the update and whose
    non-zero-quantity ask prices are above the bid prices of the book,
    the best bid price is strictly less than the best ask price
    whenever both sides are non-empty. *)
Theorem uncrossedFeed_best ob :
  uncrossedFeed ParseFloat ob ->
  forall pb qb pa qa,
    BestBid ob = (pb, qb, true) -> BestAsk ob = (pa, qa, true) ->
    ltb pb pa = true.
Proof.
  intros H pb qb pa qa Hb Ha.
  apply (uncrossedFeed_uncrossed ob H); eapply best_In; eauto.
Qed.

End Crossing.

(** ** A snapshot that fails *)

Section SnapshotFailure.

Variable ParseFloat : string -> float64 * option NumError.

(** Whatever its end, the loop of [ApplySnapshot] has stored the positive
    entries that precede the first failing level. *)
Lemma snapshotLoop_prefix levels : forall m acc,
  fst (snapshotLoop ParseFloat levels m acc)
  = (loadQty (keptPrefix ParseFloat levels) m,
     acc ++ map fst (keptPrefix ParseFloat levels)).
Proof.
  induction levels as [|lvl rest IH]; intros m acc.
  - simpl. rewrite app_nil_r. reflexivity.
  - destruct lvl as [|s0 [|s1 tl]];
      try (simpl; rewrite app_nil_r; reflexivity).
    unfold keptPrefix. cbn [snapshotLoop parsedPrefix levelParses].
    unfold parsedLevel. cbn [nth].
    destruct (ParseFloat s0) as [p [e1|]], (ParseFloat s1) as [q [e2|]];
      cbn [snd fst isSome negb andb orb];
      try (simpl; rewrite app_nil_r; reflexivity).
    cbn [filter snd]. destruct (gtb q zero).
    + rewrite IH. unfold keptPrefix. cbn [map fst loadQty fold_left snd].
      rewrite <- app_assoc. reflexivity.
    + apply IH.
Qed.

Lemma snapshotLoop_end_Completed levels : forall m acc,
  snd (snapshotLoop ParseFloat levels m acc) = Completed
  <-> forallb (levelParses ParseFloat) levels = true.
Proof.
  induction levels as [|lvl rest IH]; intros m acc.
  - simpl. tauto.
  - destruct lvl as [|s0 [|s1 tl]]; try (simpl; split; discriminate).
    cbn [snapshotLoop forallb levelParses].
    destruct (ParseFloat s0) as [p [e1|]], (ParseFloat s1) as [q [e2|]];
      cbn [snd isSome negb andb orb]; try (split; discriminate).
    destruct (gtb q zero); apply IH.
Qed.

(** The tables after [ApplySnapshot] are built from the message alone. *)
Lemma ApplySnapshot_tables_fresh ob snap :
  bids (fst (ApplySnapshot ParseFloat ob snap))
  = bids (fst (ApplySnapshot ParseFloat New snap))
  /\ asks (fst (ApplySnapshot ParseFloat ob snap))
     = asks (fst (ApplySnapshot ParseFloat New snap)).
Proof.
  unfold ApplySnapshot.
  destruct (snapshotLoop ParseFloat (SnapshotMsg.Bids snap) GoMap.empty [])
    as [[bq bp] [| |]]; simpl; auto.
  destruct (snapshotLoop ParseFloat (SnapshotMsg.Asks snap) GoMap.empty [])
    as [[aq ap] [| |]]; simpl; auto.
Qed.

(** C8 (amended).  When [ApplySnapshot] returns a parse error, the last
    applied sequence keeps its prior value and both tables have been
    replaced: the tables after the call are those the same call builds
    on a fresh book (a prior level survives only when the message
    supplies it again), and the quantity map of each side holds exactly
    the positive-quantity entries processed before the failing one (all
    those of the bid side and the leading ones of the ask side when the
    failure is on the ask side, none on the ask side when it is on the
    bid side). *)
Theorem ApplySnapshot_parse_error ob snap e :
  snd (ApplySnapshot ParseFloat ob snap) = Returned (Some e) ->
  let ob' := fst (ApplySnapshot ParseFloat ob snap) in
  lastID ob' = lastID ob
  /\ bids ob' = bids (fst (ApplySnapshot ParseFloat New snap))
  /\ asks ob' = asks (fst (ApplySnapshot ParseFloat New snap))
  /\ qtyAt (bids ob')
     = loadQty (keptPrefix ParseFloat (SnapshotMsg.Bids snap)) GoMap.empty
  /\ qtyAt (asks ob')
     = if forallb (levelParses ParseFloat) (SnapshotMsg.Bids snap)
       then loadQty (keptPrefix ParseFloat (SnapshotMsg.Asks snap)) GoMap.empty
       else GoMap.empty.
Proof.
  intros H. cbv zeta.
  destruct (ApplySnapshot_tables_fresh ob snap) as [Fb Fa].
  split; [|split; [exact Fb|split; [exact Fa|]]].
  - revert H. unfold ApplySnapshot.
    destruct (snapshotLoop ParseFloat (SnapshotMsg.Bids snap) GoMap.empty [])
      as [[bq bp] [| |]]; simpl; auto.
    destruct (snapshotLoop ParseFloat (SnapshotMsg.Asks snap) GoMap.empty [])
      as [[aq ap] [| |]]; simpl; auto. discriminate.
  - pose proof (snapshotLoop_prefix (SnapshotMsg.Bids snap) GoMap.empty []) as Pb.
    pose proof (snapshotLoop_prefix (SnapshotMsg.Asks snap) GoMap.empty []) as Pa.
    pose proof (snapshotLoop_end_Completed (SnapshotMsg.Bids snap) GoMap.empty [])
      as Cb.
    unfold ApplySnapshot.
    destruct (snapshotLoop ParseFloat (SnapshotMsg.Bids snap) GoMap.empty [])
      as [[bq bp] bend].
    simpl in Pb, Cb. inversion Pb; subst.
    destruct (forallb (levelParses ParseFloat) (SnapshotMsg.Bids snap)).
    + rewrite (proj2 Cb eq_refl).
      destruct (snapshotLoop ParseFloat (SnapshotMsg.Asks snap) GoMap.empty [])
        as [[aq ap] aend].
      simpl in Pa. inversion Pa; subst.
      destruct aend; simpl; auto.
    + destruct bend; simpl; auto.
      destruct Cb as [Cb _]. specialize (Cb eq_refl). discriminate.
Qed.

End SnapshotFailure.

(** ** Negative quantities *)

Module NegativeFacts.

Import TableFacts.
Local Open Scope nat_scope.

Lemma existsb_remove_at (f : float64 -> bool) l pos d :
  existsb f l = true -> f (nth pos l d) = false ->
  existsb f (firstn pos l ++ skipn (pos + 1) l) = true.
Proof.
  intros H Hf. destruct (Nat.lt_ge_cases pos (List.length l)) as [Hlt|Hge].
  - rewrite (split_at_nth l pos d Hlt) in H.
    rewrite existsb_app in *. simpl in H. rewrite Hf in H. exact H.
  - rewrite firstn_all2 by lia. rewrite skipn_all2 by lia.
    rewrite app_nil_r. exact H.
Qed.

Lemma removePrice_listed lm p' k :
  existsb (eqb k) (prices lm) = true -> eqb p' k = false ->
  existsb (eqb k) (prices (removePrice lm p')) = true.
Proof.
  intros H Hne. unfold removePrice.
  destruct ((searchPos lm p' <? List.length (prices lm))
            && eqb (nth (searchPos lm p') (prices lm) zero) p') eqn:E; trivial.
  simpl. apply (existsb_remove_at _ _ _ zero); trivial.
  apply andb_true_iff in E. destruct E as [_ E].
  rewrite eqb_sym, (eqb_compat _ _ k E). exact Hne.
Qed.

(** Every [set] keeps the keys of the map listed. *)
Lemma set_keysListed lm p q : keysListed lm -> keysListed (set lm p q).
Proof.
  intros Hk k. unfold set.
  destruct (eqb q zero).
  - destruct (GoMap.mem p (qtyAt lm)) eqn:Hm; [|apply Hk].
    intros H.
    assert (Hd : GoMap.mem k (GoMap.delete p (qtyAt lm)) = true).
    { revert H. unfold removePrice, withQtyAt.
      match goal with |- context [if ?c then _ else _] => destruct c end;
        simpl; trivial. }
    rewrite GoMapFacts.mem_delete in Hd. apply andb_true_iff in Hd.
    destruct Hd as [Hne Hmk]. apply negb_true_iff in Hne.
    apply removePrice_listed; trivial. simpl. apply Hk, Hmk.
  - destruct (GoMap.mem p (qtyAt lm)) eqn:Hm; simpl.
    + rewrite GoMapFacts.mem_store. intros H. apply Hk.
      destruct (eqb p k) eqn:E; trivial.
      rewrite <- (GoMapFacts.mem_compat p k _ E). exact Hm.
    + rewrite GoMapFacts.mem_store, existsb_insert_at, (eqb_sym k p).
      intros H. apply orb_true_iff in H. destruct H as [->|H]; trivial.
      rewrite (Hk k H). apply orb_true_r.
Qed.

Lemma qtyAt_removePrice lm p : qtyAt (removePrice lm p) = qtyAt lm.
Proof.
  unfold removePrice.
  match goal with |- context [if ?c then _ else _] => destruct c end;
    reflexivity.
Qed.

(** A quantity other than zero is stored under its price. *)
Lemma set_lookup lm p q :
  isNaN p = false -> eqb q zero = false ->
  GoMap.lookup p (qtyAt (set lm p q)) = Some q.
Proof.
  intros Hp Hq. unfold set. rewrite Hq.
  destruct (GoMap.mem p (qtyAt lm)); simpl;
    rewrite GoMapFacts.lookup_store, (eqb_refl p Hp); reflexivity.
Qed.

Lemma set_listed lm p q :
  keysListed lm -> isNaN p = false -> eqb q zero = false ->
  existsb (eqb p) (prices (set lm p q)) = true.
Proof.
  intros Hk Hp Hq. unfold set. rewrite Hq.
  destruct (GoMap.mem p (qtyAt lm)) eqn:Hm; simpl.
  - apply Hk, Hm.
  - rewrite existsb_insert_at, (eqb_refl p Hp). reflexivity.
Qed.

(** A [set] at another price leaves the entry of [p] alone. *)
Lemma set_other_lookup lm p p' q' :
  eqb p' p = false ->
  GoMap.lookup p (qtyAt (set lm p' q')) = GoMap.lookup p (qtyAt lm).
Proof.
  intros Hne. unfold set.
  destruct (eqb q' zero), (GoMap.mem p' (qtyAt lm)); simpl; trivial.
  - rewrite qtyAt_removePrice. simpl.
    rewrite GoMapFacts.lookup_delete, Hne. reflexivity.
  - rewrite GoMapFacts.lookup_store, Hne. reflexivity.
  - rewrite GoMapFacts.lookup_store, Hne. reflexivity.
Qed.

Lemma set_other_listed lm p p' q' :
  eqb p' p = false -> existsb (eqb p) (prices lm) = true ->
  existsb (eqb p) (prices (set lm p' q')) = true.
Proof.
  intros Hne H. unfold set.
  destruct (eqb q' zero), (GoMap.mem p' (qtyAt lm)); simpl; trivial.
  - apply removePrice_listed; trivial.
  - rewrite existsb_insert_at, H. apply orb_true_r.
Qed.

Lemma ltb_zero_neq q : ltb q zero = true -> eqb q zero = false.
Proof.
  intros H. apply ltb_true in H. destruct H as (_ & _ & H).
  destruct (eqb q zero) eqn:E; trivial.
  apply eqb_true in E. destruct E as (_ & _ & E).
  exfalso. exact (FEq_not_Lt _ _ E H).
Qed.

Lemma ltb_zero_not_gtb q : ltb q zero = true -> gtb q zero = false.
Proof.
  intros H. apply ltb_true in H. destruct H as (_ & _ & H).
  unfold gtb. destruct (ltb zero q) eqn:E; trivial.
  apply ltb_true in E. destruct E as (_ & _ & E).
  exfalso. exact (FLt_asym _ _ H E).
Qed.

(** With a count equal to the number of prices, [topLevels] shows every
    listed price with the quantity of the map. *)
Lemma topLevels_all lm p q :
  existsb (eqb p) (prices lm) = true -> GoMap.lookup p (qtyAt lm) = Some q ->
  exists levels,
    topLevels lm (Z.of_nat (List.length (prices lm))) = Done levels
    /\ exists l, In l levels /\ eqb (Price l) p = true /\ Quantity l = q.
Proof.
  intros H Hl. unfold topLevels, min. rewrite Z.ltb_irrefl.
  destruct (Z.ltb_spec (Z.of_nat (List.length (prices lm))) 0); [lia|].
  eexists. split; [reflexivity|].
  rewrite Nat2Z.id, firstn_all.
  apply existsb_exists in H. destruct H as (x & Hx & E).
  exists {| Price := x; Quantity := GoMap.get x (qtyAt lm) |}.
  split; [|split].
  - apply in_map_iff. eauto.
  - simpl. rewrite eqb_sym. exact E.
  - simpl. unfold GoMap.get.
    rewrite <- (GoMapFacts.lookup_compat p x _ E), Hl. reflexivity.
Qed.

Lemma best_front lm p q x rest :
  GoMap.lookup p (qtyAt lm) = Some q -> prices lm = x :: rest ->
  eqb x p = true -> best lm = (x, q, true).
Proof.
  intros Hl Hp E. unfold best. rewrite Hp. unfold GoMap.get.
  rewrite (GoMapFacts.lookup_compat x p _ E), Hl. reflexivity.
Qed.

End NegativeFacts.

Section NegativeQuantity.

Variable ParseFloat : string -> float64 * option NumError.

Import NegativeFacts.

Lemma applyEntries_app l1 l2 lm :
  applyEntries ParseFloat (l1 ++ l2) lm
  = applyEntries ParseFloat l2 (applyEntries ParseFloat l1 lm).
Proof. apply fold_left_app. Qed.

Lemma applyEntries_keysListed levels : forall lm,
  keysListed lm -> keysListed (applyEntries ParseFloat levels lm).
Proof.
  induction levels as [|lvl rest IH]; intros lm H; simpl; trivial.
  apply IH, set_keysListed, H.
Qed.

(** Entries at other prices leave the level of [p] stored and listed. *)
Lemma applyEntries_keeps p q levels : forall lm,
  forallb (fun lvl => negb (eqb (fst (parsedLevel ParseFloat lvl)) p)) levels
  = true ->
  GoMap.lookup p (qtyAt lm) = Some q -> existsb (eqb p) (prices lm) = true ->
  GoMap.lookup p (qtyAt (applyEntries ParseFloat levels lm)) = Some q
  /\ existsb (eqb p) (prices (applyEntries ParseFloat levels lm)) = true.
Proof.
  induction levels as [|lvl rest IH]; intros lm H Hl Hp; simpl in *; auto.
  apply andb_true_iff in H. destruct H as [Hne Hr].
  apply negb_true_iff in Hne.
  apply IH; trivial.
  - rewrite set_other_lookup; trivial.
  - apply set_other_listed; trivial.
Qed.

(** C9 (amended).  In an acceptable diff whose strings all parse, an
    entry whose quantity is strictly negative and whose price is a
    number is stored, not deleted or dropped, provided the table lists
    every key of its quantity map and no later entry of the same side
    names the same price: after [ApplyUpdate] the price is mapped to the
    negative quantity, it is listed among the ordered prices, [topLevels]
    shows it with that quantity, and [best] returns it when it is the
    front price.  The loop of [ApplySnapshot] skips the same level. *)
Theorem ApplyUpdate_negative_quantity ob upd bidSide pre post s0 s1 tl p q :
  acceptable ob upd ->
  forallb (levelParses ParseFloat) (UpdateMsg.Bids upd) = true ->
  forallb (levelParses ParseFloat) (UpdateMsg.Asks upd) = true ->
  sideLevels bidSide upd = pre ++ (s0 :: s1 :: tl) :: post ->
  ParseFloat s0 = (p, None) -> ParseFloat s1 = (q, None) ->
  ltb q zero = true -> isNaN p = false ->
  forallb (fun lvl => negb (eqb (fst (parsedLevel ParseFloat lvl)) p)) post
  = true ->
  keysListed (sideTable bidSide ob) ->
  let t := sideTable bidSide (fst (ApplyUpdate ParseFloat ob upd)) in
  GoMap.lookup p (qtyAt t) = Some q
  /\ existsb (eqb p) (prices t) = true
  /\ (exists levels,
        topLevels t (Z.of_nat (List.length (prices t))) = Done levels
        /\ exists l, In l levels /\ eqb (Price l) p = true /\ Quantity l = q)
  /\ (forall x rest, prices t = x :: rest -> eqb x p = true ->
                     best t = (x, q, true))
  /\ (forall rest m acc,
        snapshotLoop ParseFloat ((s0 :: s1 :: tl) :: rest) m acc
        = snapshotLoop ParseFloat rest m acc).
Proof.
  intros Hacc Hb Ha Hl H0 H1 Hq Hp Hpost Hk. cbv zeta.
  rewrite (ApplyUpdate_applied _ _ _ Hacc Hb Ha).
  assert (Et : sideTable bidSide (fst (appliedBook ParseFloat ob upd, Returned None))
               = applyEntries ParseFloat (sideLevels bidSide upd)
                   (sideTable bidSide ob))
    by (destruct bidSide; reflexivity).
  rewrite Et, Hl, applyEntries_app.
  set (lm1 := applyEntries ParseFloat pre (sideTable bidSide ob)).
  assert (Hk1 : keysListed lm1) by (apply applyEntries_keysListed, Hk).
  assert (Es : applyEntries ParseFloat ((s0 :: s1 :: tl) :: post) lm1
               = applyEntries ParseFloat post (set lm1 p q)).
  { unfold applyEntries, parsedLevel. simpl. rewrite H0, H1. reflexivity. }
  rewrite Es.
  pose proof (ltb_zero_neq q Hq) as Hq0.
  destruct (applyEntries_keeps p q post (set lm1 p q) Hpost
              (set_lookup lm1 p q Hp Hq0) (set_listed lm1 p q Hk1 Hp Hq0))
    as [Hlook Hlist].
  split; [exact Hlook|]. split; [exact Hlist|].
  split; [apply topLevels_all; trivial|].
  split; [intros x rest; apply best_front; trivial|].
  intros rest m acc. simpl. rewrite H0, H1. simpl.
  rewrite (ltb_zero_not_gtb q Hq). reflexivity.
Qed.

End NegativeQuantity.

(** ** The scenarios *)

Module ScenarioFacts.

Import Scenario.

(** The test of the repository: after the snapshot the best bid is
    10000; the update removes the best bid and the best ask. *)
Example scenario1_snapshot :
  BestBid book1 = (ofZ 10000, ofZ 1, true)
  /\ BestAsk book1 = (ofZ 10010, ofZ 1, true)
  /\ GetLastID book1 = 1.
Proof. vm_compute. auto. Qed.

Example scenario1_diff :
  let r := ApplyUpdate parse book1 diff2 in
  snd r = Returned None
  /\ BestBid (fst r) = (zero, zero, false)
  /\ BestAsk (fst r) = (zero, zero, false)
  /\ GetLastID (fst r) = 2.
Proof. vm_compute. auto. Qed.

Example scenario_best_price :
  BestBid book4 = (ofZ 100, ofZ 1, true)
  /\ BestAsk book4 = (ofZ 101, ofZ 1, true).
Proof. vm_compute. auto. Qed.

Example scenario_book9 :
  GetBids book9 10
  = Done [ {| Price := fst (parse "99.5"); Quantity := ofZ 2 |};
           {| Price := ofZ 99; Quantity := ofZ 1 |};
           {| Price := ofZ 97; Quantity := ofZ 3 |} ]
  /\ GetAsks book9 1
     = Done [ {| Price := fst (parse "101.5"); Quantity := ofZ 4 |} ]
  /\ GetLastID book9 = 9.
Proof. vm_compute. auto. Qed.

(** At the top of the [int64] range [lastID + 1] wraps around: on a book
    at sequence [max_int64] a diff from [min_int64] to [min_int64] is
    accepted. *)
Example scenario_wrap_around :
  let ob := fst (ApplySnapshot parse New (SnapshotMsg.mk max_int64 [] [])) in
  let r := ApplyUpdate parse ob (UpdateMsg.mk min_int64 min_int64 [] []) in
  GetLastID ob = max_int64 /\ snd r = Returned None
  /\ GetLastID (fst r) = min_int64.
Proof. vm_compute. auto. Qed.

(** A price that is not a number is listed at every [set]: it is never
    found in the map, and it is read back with the quantity zero. *)
Example scenario_nan_price :
  let r := ApplyUpdate parse New
             (UpdateMsg.mk 1 1 [["NaN"; "1"]; ["NaN"; "2"]]%string []) in
  snd r = Returned None
  /\ prices (bids (fst r)) = [nan; nan]
  /\ BestBid (fst r) = (nan, zero, true).
Proof. vm_compute. auto. Qed.

(** The search of [insertPrice] and [removePrice] needs no more turns
    than it is given. *)
Example search_fuel_enough f n k :
  GoSort.search_loop (n + k) f 0 n = GoSort.Search n f.
Proof. apply GoSortFacts.search_loop_fuel; lia. Qed.

End ScenarioFacts.

(** ** A quantity that fails to parse

    Both parsing loops test [err1 != nil || err2 != nil] and then return
    [err1]: when only the quantity is malformed, what they return is
    [nil]. *)

Section QuantityError.

Variable ParseFloat : string -> float64 * option NumError.

Lemma parseLevels_quantity_error s0 s1 tl rest m p q e :
  ParseFloat s0 = (p, None) -> ParseFloat s1 = (q, Some e) ->
  parseLevels ParseFloat ((s0 :: s1 :: tl) :: rest) m = (m, Returned None).
Proof. intros H0 H1. simpl. rewrite H0, H1. reflexivity. Qed.

Lemma parseLevels_price_error s0 s1 tl rest m p e :
  ParseFloat s0 = (p, Some e) ->
  parseLevels ParseFloat ((s0 :: s1 :: tl) :: rest) m
  = (m, Returned (Some (ErrNum e))).
Proof.
  intros H0. simpl. rewrite H0. destruct (ParseFloat s1). reflexivity.
Qed.

Lemma snapshotLoop_quantity_error s0 s1 tl rest m acc p q e :
  ParseFloat s0 = (p, None) -> ParseFloat s1 = (q, Some e) ->
  snapshotLoop ParseFloat ((s0 :: s1 :: tl) :: rest) m acc
  = (m, acc, Return None).
Proof. intros H0 H1. simpl. rewrite H0, H1. reflexivity. Qed.

(** When [ApplyUpdate] does return an error, the sequence has not
    moved. *)
Lemma ApplyUpdate_error_keeps_lastID ob upd e :
  snd (ApplyUpdate ParseFloat ob upd) = Returned (Some e) ->
  lastID (fst (ApplyUpdate ParseFloat ob upd)) = lastID ob.
Proof.
  destruct (acceptable_dec ob upd) as [Hacc|Hn].
  - rewrite (ApplyUpdate_accepted_eq _ _ _ Hacc).
    destruct (parseLevels ParseFloat (UpdateMsg.Bids upd) (bids ob)) as [b r1].
    destruct r1 as [[e1|]|]; simpl; auto.
    destruct (parseLevels ParseFloat (UpdateMsg.Asks upd) (asks ob)) as [a r2].
    destruct r2 as [[e2|]|]; simpl; auto. discriminate.
  - intros _. rewrite (ApplyUpdate_rejected _ _ _ Hn). reflexivity.
Qed.

End QuantityError.

(** ** The properties on the scenarios *)

Module Instances.

Import Scenario.

(** Scenario 1: the diff [2..2] on the book at sequence 1 is accepted and
    applied. *)
Lemma ApplyUpdate_acceptable_iff_witness :
  ApplyUpdate parse book1 diff2
  = (appliedBook parse book1 diff2, Returned None).
Proof.
  apply (proj1 (ApplyUpdate_acceptable_iff parse book1 diff2 eq_refl eq_refl)).
  unfold acceptable. vm_compute. split; discriminate.
Defined.

(** Scenario 2: the diff [1050..1060] on the book at sequence 1000 is a gap. *)
Lemma ApplyUpdate_gap_witness :
  snd (ApplyUpdate parse book1000 diffGap) = Returned (Some ErrGap)
  /\ fst (ApplyUpdate parse book1000 diffGap) = book1000.
Proof.
  apply ApplyUpdate_gap; vm_compute; [reflexivity|discriminate].
Defined.

(** A replayed diff ending at 1000 on the book at sequence 1000 is dropped
    without its entries being read. *)
Lemma ApplyUpdate_stale_witness :
  let ob' := fst (ApplyUpdate parse book1000 diffStale) in
  snd (ApplyUpdate parse book1000 diffStale) = Returned None
  /\ BestBid ob' = BestBid book1000
  /\ BestAsk ob' = BestAsk book1000
  /\ (forall n, GetBids ob' n = GetBids book1000 n)
  /\ (forall n, GetAsks ob' n = GetAsks book1000 n)
  /\ GetLastID ob' = GetLastID book1000.
Proof. apply ApplyUpdate_stale. vm_compute. reflexivity. Defined.

(** C4.  The diff [diffBadQty] is acceptable on a new book and the
    quantity of its only entry does not parse; [ApplyUpdate] returns
    [nil] and stores the final sequence [1]. *)
Theorem ApplyUpdate_malformed_quantity_advances :
  snd (parse "abc") = Some ErrSyntax
  /\ ApplyUpdate parse New diffBadQty
     = ({| lastID := 1; bids := newLevelMap true; asks := newLevelMap false |},
        Returned None).
Proof. vm_compute. auto. Qed.

(** C5.  The quantity of the only entry of [snapshotBadQty] does not
    parse; [ApplySnapshot] returns [nil], with empty tables and the
    sequence of the snapshot not stored. *)
Theorem ApplySnapshot_malformed_quantity_succeeds :
  snd (parse "abc") = Some ErrSyntax
  /\ ApplySnapshot parse New snapshotBadQty = (New, Returned None).
Proof. vm_compute. auto. Qed.

(** A snapshot that names the bid price 100 twice is loaded without error
    and lists the price twice: the prices of a reachable book need not be
    strictly sorted. *)
Lemma reachable_duplicate_price :
  ~ (forall ob, reachable parse ob -> bookSorted ob).
Proof.
  intros H.
  destruct (H (fst (ApplySnapshot parse New snapshotTwice))
              (any_snapshot parse New snapshotTwice (any_New parse)))
    as (Hb & _).
  assert (E : prices (bids (fst (ApplySnapshot parse New snapshotTwice)))
              = [ofZ 100; ofZ 100]) by (vm_compute; reflexivity).
  rewrite E in Hb.
  inversion Hb as [|x l _ Hf]; subst.
  inversion Hf as [|y l' Hx _]; subst.
  vm_compute in Hx. discriminate Hx.
Qed.

(** The book after [snapshot4] and [diff8] is sorted and in step with its
    maps. *)
Lemma cleanlyReachable_sorted_witness : bookSorted book9.
Proof.
  apply (cleanlyReachable_sorted parse book9).
  unfold book9. apply reach_update; [|vm_compute; reflexivity].
  unfold book4. apply reach_snapshot; [|vm_compute; reflexivity].
  apply reach_New.
Defined.

(** A snapshot with the bid 10 and the ask 5 is loaded without error: a
    reachable book can be crossed. *)
Lemma reachable_crossed_book :
  ~ (forall ob, reachable parse ob ->
       forall pb qb pa qa,
         BestBid ob = (pb, qb, true) -> BestAsk ob = (pa, qa, true) ->
         ltb pb pa = true).
Proof.
  intros H.
  specialize (H (fst (ApplySnapshot parse New snapshotCrossed))
                (any_snapshot parse New snapshotCrossed (any_New parse))
                (ofZ 10) (ofZ 1) (ofZ 5) (ofZ 1) eq_refl eq_refl).
  vm_compute in H. discriminate H.
Qed.

(** The book after [snapshot4] and [diff8]: best bid 99.5, best ask 101.5. *)
Lemma uncrossedFeed_best_witness :
  ltb (fst (fst (BestBid book9))) (fst (fst (BestAsk book9))) = true.
Proof.
  apply (uncrossedFeed_best parse book9) with
    (qb := snd (fst (BestBid book9))) (qa := snd (fst (BestAsk book9)));
    [|reflexivity|reflexivity].
  unfold book9. apply feed_update; [|vm_compute; reflexivity].
  unfold book4. apply feed_snapshot; [|vm_compute; reflexivity].
  apply feed_New.
Defined.

(** On the book with the bid 100, a snapshot with the same bid and a
    malformed second ask returns the error; the bid 100 is there before and
    after, and the ask 101, processed before the failing one, is in the
    quantity map but not among the ordered prices. *)
Lemma ApplySnapshot_parse_error_unlisted :
  let r := ApplySnapshot parse bookBid snapshotBadAsk in
  snd r = Returned (Some (ErrNum ErrSyntax))
  /\ BestBid bookBid = (ofZ 100, ofZ 1, true)
  /\ BestBid (fst r) = (ofZ 100, ofZ 1, true)
  /\ GoMap.lookup (ofZ 101) (qtyAt (asks (fst r))) = Some (ofZ 1)
  /\ prices (asks (fst r)) = []
  /\ BestAsk (fst r) = (zero, zero, false)
  /\ GetAsks (fst r) 10 = Done [].
Proof. vm_compute. auto 8. Qed.

(** The same call, through the theorem. *)
Lemma ApplySnapshot_parse_error_witness :
  let ob' := fst (ApplySnapshot parse bookBid snapshotBadAsk) in
  lastID ob' = lastID bookBid
  /\ bids ob' = bids (fst (ApplySnapshot parse New snapshotBadAsk))
  /\ asks ob' = asks (fst (ApplySnapshot parse New snapshotBadAsk))
  /\ qtyAt (bids ob')
     = loadQty (keptPrefix parse (SnapshotMsg.Bids snapshotBadAsk)) GoMap.empty
  /\ qtyAt (asks ob')
     = if forallb (levelParses parse) (SnapshotMsg.Bids snapshotBadAsk)
       then loadQty (keptPrefix parse (SnapshotMsg.Asks snapshotBadAsk))
              GoMap.empty
       else GoMap.empty.
Proof.
  apply (ApplySnapshot_parse_error parse bookBid snapshotBadAsk
           (ErrNum ErrSyntax)).
  reflexivity.
Defined.

(** After a snapshot that failed on its second bid, the quantity map holds
    the price 100 and the ordered prices are empty; a diff that sets the
    quantity -5 at 100 is accepted, and the level is neither listed nor
    shown by [BestBid] and [GetBids]. *)
Lemma ApplyUpdate_negative_quantity_unlisted :
  let r := ApplyUpdate parse bookBadBid diffNegative in
  snd (ApplySnapshot parse New snapshotBadBid)
  = Returned (Some (ErrNum ErrSyntax))
  /\ snd r = Returned None
  /\ GetLastID (fst r) = 1
  /\ ltb (fst (parse "-5")) zero = true
  /\ GoMap.lookup (ofZ 100) (qtyAt (bids (fst r))) = Some (fst (parse "-5"))
  /\ prices (bids (fst r)) = []
  /\ BestBid (fst r) = (zero, zero, false)
  /\ GetBids (fst r) 10 = Done [].
Proof. vm_compute. auto 10. Qed.

(** On a new book, the entry (100, -5) between two other entries is stored
    and shown. *)
Lemma ApplyUpdate_negative_quantity_witness :
  let t := sideTable true (fst (ApplyUpdate parse New diffNegative3)) in
  let p := ofZ 100 in
  let q := fst (parse "-5") in
  GoMap.lookup p (qtyAt t) = Some q
  /\ existsb (eqb p) (prices t) = true
  /\ (exists levels,
        topLevels t (Z.of_nat (List.length (prices t))) = Done levels
        /\ exists l, In l levels /\ eqb (Price l) p = true /\ Quantity l = q)
  /\ (forall x rest, prices t = x :: rest -> eqb x p = true ->
                     best t = (x, q, true))
  /\ (forall rest m acc,
        snapshotLoop parse (["100"; "-5"]%string :: rest) m acc
        = snapshotLoop parse rest m acc).
Proof.
  apply (ApplyUpdate_negative_quantity parse New diffNegative3 true
           [["99"; "1"]%string] [["101"; "2"]%string] "100"%string
           "-5"%string [] (ofZ 100) (fst (parse "-5")));
    try reflexivity.
  - unfold acceptable. vm_compute. split; discriminate.
  - intros k Hk. discriminate Hk.
Defined.

(** [GetBids] and [GetAsks] with -1 on a book of three bids and two asks. *)
Lemma GetBids_GetAsks_negative_panic_witness :
  GetBids book9 (-1) = Panic /\ GetAsks book9 (-1) = Panic.
Proof.
  apply (proj1 (GetBids_GetAsks_negative_panic book9 (-1))). reflexivity.
Defined.

End Instances.

(** * Further properties of the table *)

Module MoreTableFacts.

Import TableFacts NegativeFacts.

Lemma mem_true_number p m : GoMap.mem p m = true -> isNaN p = false.
Proof.
  unfold GoMap.mem. induction m as [|[k w] m IH]; simpl; [discriminate|].
  destruct (eqb k p) eqn:E; trivial.
  intros _. apply eqb_true in E. tauto.
Qed.

Lemma mem_false_lookup p m : GoMap.mem p m = false -> GoMap.lookup p m = None.
Proof. unfold GoMap.mem. destruct (GoMap.lookup p m); [discriminate|trivial]. Qed.

Lemma store_store p q m :
  isNaN p = false -> GoMap.store p q (GoMap.store p q m) = GoMap.store p q m.
Proof.
  intros Hp. induction m as [|[k w] m IH]; simpl.
  - rewrite (eqb_refl p Hp). reflexivity.
  - destruct (eqb k p) eqn:E; simpl.
    + rewrite (eqb_refl p Hp). reflexivity.
    + rewrite E, IH. reflexivity.
Qed.

Lemma withQtyAt_same lm : withQtyAt lm (qtyAt lm) = lm.
Proof. destruct lm. reflexivity. Qed.

End MoreTableFacts.

Import TableFacts NegativeFacts MoreTableFacts.

(** X1.  [set] keeps a table in order: on a table whose prices are numbers,
    strictly sorted for its side and in step with the keys of its quantity
    map, a [set] at any price that is a number, with any quantity, leaves a
    table with the same three properties, on the same side. *)
Theorem set_keeps_invariant lm p q :
  tableInv lm -> isNaN p = false ->
  tableInv (set lm p q) /\ isBid (set lm p q) = isBid lm.
Proof.
  intros Hinv Hp. split.
  - apply TableFacts.set_tableInv; trivial.
  - apply TableFacts.isBid_set.
Qed.

(** X2.  Deletion: on a table that satisfies the invariant, a [set] with a
    quantity equal to zero leaves the price out of the quantity map and out
    of the ordered prices, and every other price keeps its quantity and its
    place among the listed prices. *)
Theorem set_zero_removes lm p q :
  tableInv lm -> eqb q zero = true ->
  let lm' := set lm p q in
  GoMap.lookup p (qtyAt lm') = None
  /\ existsb (eqb p) (prices lm') = false
  /\ forall r, eqb p r = false ->
       GoMap.lookup r (qtyAt lm') = GoMap.lookup r (qtyAt lm)
       /\ existsb (eqb r) (prices lm') = existsb (eqb r) (prices lm).
Proof.
  intros Hinv Hq. cbv zeta.
  destruct (GoMap.mem p (qtyAt lm)) eqn:Hm.
  - pose proof (mem_true_number _ _ Hm) as Hp.
    pose proof (TableFacts.set_tableInv lm p q Hinv Hp) as [_ _ Hk'].
    destruct Hinv as [_ _ Hk].
    assert (Eq : qtyAt (set lm p q) = GoMap.delete p (qtyAt lm)).
    { unfold set. rewrite Hq, Hm. apply qtyAt_removePrice. }
    unfold sameKeys in Hk'. rewrite Eq in *.
    split; [|split].
    + rewrite GoMapFacts.lookup_delete, (eqb_refl p Hp). reflexivity.
    + rewrite Hk', GoMapFacts.mem_delete, (eqb_refl p Hp). reflexivity.
    + intros r Hr. split.
      * rewrite GoMapFacts.lookup_delete, Hr. reflexivity.
      * rewrite Hk', GoMapFacts.mem_delete, Hr, Hk. reflexivity.
  - assert (E : set lm p q = lm) by (unfold set; rewrite Hq, Hm; reflexivity).
    rewrite E. destruct Hinv as [_ _ Hk].
    split; [apply mem_false_lookup, Hm|]. split; [rewrite Hk; exact Hm|auto].
Qed.

(** X3.  A second [set] of the same price and quantity changes nothing,
    for every table and every price that is a number: an entry delivered
    twice is applied once. *)
Theorem set_idempotent lm p q :
  isNaN p = false -> set (set lm p q) p q = set lm p q.
Proof.
  intros Hp. unfold set at 1.
  destruct (eqb q zero) eqn:Hq.
  - assert (Hm : GoMap.mem p (qtyAt (set lm p q)) = false).
    { unfold set. rewrite Hq.
      destruct (GoMap.mem p (qtyAt lm)) eqn:Hm; trivial.
      rewrite qtyAt_removePrice. simpl.
      rewrite GoMapFacts.mem_delete, (eqb_refl p Hp). reflexivity. }
    rewrite Hm. reflexivity.
  - assert (Eq : qtyAt (set lm p q) = GoMap.store p q (qtyAt lm)).
    { unfold set. rewrite Hq. destruct (GoMap.mem p (qtyAt lm)); reflexivity. }
    assert (Hm : GoMap.mem p (qtyAt (set lm p q)) = true).
    { rewrite Eq, GoMapFacts.mem_store, (eqb_refl p Hp). reflexivity. }
    rewrite Hm. simpl.
    rewrite Eq at 1. rewrite (store_store p q _ Hp), <- Eq.
    apply withQtyAt_same.
Qed.

(** X4.  [insertPrice] adds the price once and keeps every price that was
    listed, on any table; on a table whose prices are numbers, strictly
    sorted, a price that is a number and is not listed goes to the place
    that keeps the prices strictly sorted. *)
Theorem insertPrice_adds_once lm p :
  Permutation (prices (insertPrice lm p)) (p :: prices lm)
  /\ qtyAt (insertPrice lm p) = qtyAt lm
  /\ (Forall (fun x => isNaN x = false) (prices lm) -> sortedPrices lm ->
      isNaN p = false -> existsb (eqb p) (prices lm) = false ->
      sortedPrices (insertPrice lm p)).
Proof.
  split; [|split].
  - simpl. apply Permutation_sym.
    rewrite <- (firstn_skipn (searchPos lm p) (prices lm)) at 1.
    apply Permutation_middle.
  - reflexivity.
  - apply insertPrice_sorted.
Qed.


(** X6.  [best] answers [false] exactly on a table without prices; on a
    table that satisfies the invariant, what it returns is the front
    price, which stands strictly before every other listed price (the
    highest bid, the lowest ask), with the quantity the map holds for
    it. *)
Theorem best_is_extremum lm :
  (snd (best lm) = false <-> prices lm = [])
  /\ (tableInv lm -> forall p q, best lm = (p, q, true) ->
      exists rest,
        prices lm = p :: rest
        /\ Forall (fun x => strictlyBefore (isBid lm) p x = true) rest
        /\ GoMap.lookup p (qtyAt lm) = Some q).
Proof.
  split.
  - unfold best. destruct (prices lm); simpl; split; congruence.
  - intros [Hn Hs Hk] p q. unfold best, sortedPrices in *.
    destruct (prices lm) as [|x rest] eqn:E; [discriminate|].
    intros H. inversion H; subst. exists rest. split; trivial.
    inversion Hs; subst. split; trivial.
    inversion Hn; subst.
    specialize (Hk p). rewrite E in Hk. simpl in Hk.
    rewrite (eqb_refl p) in Hk by trivial. simpl in Hk.
    unfold GoMap.mem, GoMap.get in *.
    destruct (GoMap.lookup p (qtyAt lm)); [reflexivity|discriminate].
Qed.

(** X7.  For a count that is not negative, [topLevels] returns the levels
    of the first [min(count, len)] prices, in the order of the table; a
    smaller count gives a prefix of what a larger one gives; and when the
    count is positive the first level is what [best] returns. *)
Theorem topLevels_prefix lm n :
  0 <= n ->
  topLevels lm n = Done (map (levelOf lm) (firstn (Z.to_nat n) (prices lm)))
  /\ (forall m l, n <= m -> topLevels lm m = Done l ->
        topLevels lm n = Done (firstn (Z.to_nat n) l))
  /\ (forall p q, 0 < n -> best lm = (p, q, true) ->
        exists rest, topLevels lm n = Done ({| Price := p; Quantity := q |} :: rest)).
Proof.
  intros Hn.
  assert (E : forall k, 0 <= k ->
            topLevels lm k
            = Done (map (levelOf lm) (firstn (Z.to_nat k) (prices lm)))).
  { intros k Hk. unfold topLevels, min.
    destruct (Z.ltb_spec (Z.of_nat (List.length (prices lm))) k) as [Hlt|Hge].
    - destruct (Z.ltb_spec (Z.of_nat (List.length (prices lm))) 0); [lia|].
      rewrite Nat2Z.id, firstn_all, firstn_all2 by lia. reflexivity.
    - destruct (Z.ltb_spec k 0); [lia|]. reflexivity. }
  split; [apply E, Hn|]. split.
  - intros m l Hm Hl. rewrite (E m) in Hl by lia. inversion Hl; subst.
    rewrite (E n Hn), firstn_map, firstn_firstn.
    rewrite Nat.min_l by lia. reflexivity.
  - intros p q Hpos Hb. rewrite (E n Hn). unfold best in Hb.
    destruct (prices lm) as [|x rest]; [discriminate|].
    inversion Hb; subst.
    destruct (Z.to_nat n) as [|k] eqn:Ek; [lia|].
    simpl. eexists. reflexivity.
Qed.

(** * Further properties of the book *)

Section MoreBookFacts.

Variable ParseFloat : string -> float64 * option NumError.

Import SortFacts.

Lemma In_store k v p q m :
  In (k, v) (GoMap.store p q m) -> (k, v) = (p, q) \/ In (k, v) m.
Proof.
  induction m as [|[k' w] m IH]; simpl.
  - intros [H|[]]. auto.
  - destruct (eqb k' p); simpl; intros [H|H]; auto.
    destruct (IH H); auto.
Qed.

Lemma In_delete k v p m : In (k, v) (GoMap.delete p m) -> In (k, v) m.
Proof.
  induction m as [|[k' w] m IH]; simpl; trivial.
  destruct (eqb k' p); simpl; intros H; auto.
  destruct H; auto.
Qed.

Lemma gtb_zero_neq q : gtb q zero = true -> eqb q zero = false.
Proof.
  unfold gtb. intros H. apply ltb_true in H. destruct H as (_ & _ & H).
  destruct (eqb q zero) eqn:E; trivial.
  apply eqb_true in E. destruct E as (_ & _ & E).
  exfalso. exact (FEq_not_Lt _ _ (FEq_sym _ _ E) H).
Qed.

Lemma set_noZero lm p q :
  noZeroQuantity (qtyAt lm) -> noZeroQuantity (qtyAt (set lm p q)).
Proof.
  intros H k v. unfold set.
  destruct (eqb q zero) eqn:Hq, (GoMap.mem p (qtyAt lm)); simpl.
  - rewrite qtyAt_removePrice. simpl. intros Hin. eapply H, In_delete, Hin.
  - apply H.
  - intros Hin. destruct (In_store _ _ _ _ _ Hin) as [E|Hin'].
    + inversion E; subst. exact Hq.
    + eapply H, Hin'.
  - intros Hin. destruct (In_store _ _ _ _ _ Hin) as [E|Hin'].
    + inversion E; subst. exact Hq.
    + eapply H, Hin'.
Qed.

Lemma parseLevels_noZero levels : forall m,
  noZeroQuantity (qtyAt m) ->
  noZeroQuantity (qtyAt (fst (parseLevels ParseFloat levels m))).
Proof.
  induction levels as [|lvl rest IH]; intros m H; simpl; trivial.
  destruct lvl as [|s0 [|s1 tl]]; trivial.
  destruct (ParseFloat s0) as [p e1], (ParseFloat s1) as [q e2].
  destruct (isSome e1 || isSome e2); trivial.
  apply IH, set_noZero, H.
Qed.

Lemma loadQty_noZero entries : forall m,
  Forall (fun e => gtb (snd e) zero = true) entries ->
  noZeroQuantity m -> noZeroQuantity (loadQty entries m).
Proof.
  induction entries as [|[p q] entries IH]; intros m Hf Hm; simpl; trivial.
  inversion Hf; subst. apply IH; trivial.
  intros k v Hin. destruct (In_store _ _ _ _ _ Hin) as [E|Hin'].
  - inversion E; subst. apply gtb_zero_neq. assumption.
  - eapply Hm, Hin'.
Qed.

Lemma keptPrefix_positive levels :
  Forall (fun e => gtb (snd e) zero = true) (keptPrefix ParseFloat levels).
Proof.
  unfold keptPrefix. apply Forall_forall. intros e He.
  apply filter_In in He. tauto.
Qed.

(** The quantity maps after [ApplySnapshot], whatever its outcome. *)
Lemma ApplySnapshot_qtyAt ob snap :
  let ob' := fst (ApplySnapshot ParseFloat ob snap) in
  qtyAt (bids ob')
  = loadQty (keptPrefix ParseFloat (SnapshotMsg.Bids snap)) GoMap.empty
  /\ (qtyAt (asks ob') = GoMap.empty
      \/ qtyAt (asks ob')
         = loadQty (keptPrefix ParseFloat (SnapshotMsg.Asks snap)) GoMap.empty).
Proof.
  pose proof (snapshotLoop_prefix ParseFloat (SnapshotMsg.Bids snap) GoMap.empty [])
    as Pb.
  pose proof (snapshotLoop_prefix ParseFloat (SnapshotMsg.Asks snap) GoMap.empty [])
    as Pa.
  cbv zeta. unfold ApplySnapshot.
  destruct (snapshotLoop ParseFloat (SnapshotMsg.Bids snap) GoMap.empty [])
    as [[bq bp] bend].
  simpl in Pb. inversion Pb; subst.
  destruct bend; simpl; auto.
  destruct (snapshotLoop ParseFloat (SnapshotMsg.Asks snap) GoMap.empty [])
    as [[aq ap] aend].
  simpl in Pa. inversion Pa; subst.
  destruct aend; simpl; auto.
Qed.

Lemma empty_noZero : noZeroQuantity GoMap.empty.
Proof. intros k v []. Qed.

(** X8.  Invariant I3: in every book reached from [New] by any snapshots
    and updates, whatever their outcomes, no entry of either quantity map
    holds a quantity equal to zero. *)
Theorem reachable_noZeroQuantity ob :
  reachable ParseFloat ob ->
  noZeroQuantity (qtyAt (bids ob)) /\ noZeroQuantity (qtyAt (asks ob)).
Proof.
  induction 1 as [|ob snap _ _|ob upd _ [IHb IHa]].
  - split; apply empty_noZero.
  - destruct (ApplySnapshot_qtyAt ob snap) as [Eb Ea]. cbv zeta in Eb, Ea.
    split.
    + rewrite Eb. apply loadQty_noZero;
        [apply keptPrefix_positive|apply empty_noZero].
    + destruct Ea as [-> | ->]; [apply empty_noZero|].
      apply loadQty_noZero; [apply keptPrefix_positive|apply empty_noZero].
  - destruct (ApplyUpdate_tables ParseFloat ob upd) as [->|(_ & -> & [->| ->])];
      auto using parseLevels_noZero.
Qed.

(** X9.  Loading the same snapshot a second time changes nothing: the
    second call returns what the first returned and leaves the book the
    first left, on every book and for every snapshot, failing ones
    included. *)
Theorem ApplySnapshot_idempotent ob snap :
  ApplySnapshot ParseFloat (fst (ApplySnapshot ParseFloat ob snap)) snap
  = ApplySnapshot ParseFloat ob snap.
Proof.
  unfold ApplySnapshot.
  destruct (snapshotLoop ParseFloat (SnapshotMsg.Bids snap) GoMap.empty [])
    as [[bq bp] bend].
  destruct bend; simpl; try reflexivity.
  destruct (snapshotLoop ParseFloat (SnapshotMsg.Asks snap) GoMap.empty [])
    as [[aq ap] aend].
  destruct aend; reflexivity.
Qed.

Lemma Sort_In less l x : In x (GoSort.Sort less l) <-> In x l.
Proof.
  split; apply Permutation_in; [|apply Permutation_sym]; apply Sort_perm.
Qed.

Lemma SSorted_impl (R R' : float64 -> float64 -> Prop) l :
  (forall x y, R x y -> R' x y) -> StronglySorted R l -> StronglySorted R' l.
Proof.
  intros HR. induction 1; constructor; trivial.
  eapply Forall_impl; [|eassumption]. auto.
Qed.

(** X10.  A snapshot whose levels all parse replaces the book wholesale:
    the call returns [nil], stores the sequence number of the snapshot,
    and on each side lists exactly the prices of the entries with a
    positive quantity, best first (no bid is followed by a higher one, no
    ask by a lower one); a price is a key of the quantity map exactly when
    such an entry names it.  Nothing of the book before the call
    remains. *)
Theorem ApplySnapshot_wholesale ob snap :
  forallb (levelParses ParseFloat) (SnapshotMsg.Bids snap) = true ->
  forallb (levelParses ParseFloat) (SnapshotMsg.Asks snap) = true ->
  let ob' := fst (ApplySnapshot ParseFloat ob snap) in
  let bidPrices := map fst (positiveEntries ParseFloat (SnapshotMsg.Bids snap)) in
  let askPrices := map fst (positiveEntries ParseFloat (SnapshotMsg.Asks snap)) in
  snd (ApplySnapshot ParseFloat ob snap) = Returned None
  /\ lastID ob' = SnapshotMsg.LastUpdateID snap
  /\ (forall x, In x (prices (bids ob')) <-> In x bidPrices)
  /\ (forall x, In x (prices (asks ob')) <-> In x askPrices)
  /\ StronglySorted (fun x y => ltb x y = false) (prices (bids ob'))
  /\ StronglySorted (fun x y => ltb y x = false) (prices (asks ob'))
  /\ (forall p, GoMap.mem p (qtyAt (bids ob')) = existsb (eqb p) bidPrices)
  /\ (forall p, GoMap.mem p (qtyAt (asks ob')) = existsb (eqb p) askPrices).
Proof.
  intros Hb Ha. cbv zeta.
  rewrite (ApplySnapshot_all_parse ParseFloat ob snap Hb Ha). simpl.
  split; [reflexivity|]. split; [reflexivity|].
  split; [intros x; apply Sort_In|]. split; [intros x; apply Sort_In|].
  split.
  { eapply SSorted_impl; [|apply Float64sReverse_sorted].
    intros x y H. destruct (ltb x y) eqn:E; trivial.
    apply ltb_true in E. destruct E as (_ & _ & E). exfalso. exact (H E). }
  split.
  { eapply SSorted_impl; [|apply Float64s_sorted].
    intros x y H. destruct (ltb y x) eqn:E; trivial.
    apply ltb_true in E. destruct E as (_ & _ & E). exfalso. exact (H E). }
  split; intros p; rewrite mem_loadQty; apply orb_false_r.
Qed.

End MoreBookFacts.

(** * Further properties of [ApplyUpdate] *)

Section MoreUpdateFacts.

Variable ParseFloat : string -> float64 * option NumError.


(** The helper never answers [ErrGap]. *)
Lemma parseLevels_not_gap levels : forall m,
  snd (parseLevels ParseFloat levels m) <> Returned (Some ErrGap).
Proof.
  induction levels as [|lvl rest IH]; intros m; simpl; [discriminate|].
  destruct lvl as [|s0 [|s1 tl]]; try discriminate.
  destruct (ParseFloat s0) as [p [e1|]], (ParseFloat s1) as [q [e2|]];
    simpl; try discriminate.
  apply IH.
Qed.


(** X12.  Below the top of the [int64] range the last applied sequence
    never goes back in [ApplyUpdate]: after the call it is what it was, or
    it is the final sequence of the diff, which is then larger, and the
    call has returned [nil]. *)
Theorem ApplyUpdate_lastID_monotone ob upd :
  min_int64 <= lastID ob < max_int64 ->
  let r := ApplyUpdate ParseFloat ob upd in
  lastID ob <= lastID (fst r)
  /\ (lastID (fst r) = lastID ob
      \/ (lastID (fst r) = UpdateMsg.FinalID upd
          /\ lastID ob < UpdateMsg.FinalID upd
          /\ snd r = Returned None)).
Proof.
  intros Hr. cbv zeta.
  destruct (acceptable_dec ob upd) as [Hacc|Hn].
  - pose proof Hacc as [H1 H2].
    rewrite (Int64Facts.add64_succ _ Hr) in H1, H2.
    rewrite (ApplyUpdate_accepted_eq _ _ _ Hacc).
    destruct (parseLevels ParseFloat (UpdateMsg.Bids upd) (bids ob)) as [b r1].
    destruct r1 as [[e1|]|]; simpl; try (split; [lia|left; reflexivity]).
    destruct (parseLevels ParseFloat (UpdateMsg.Asks upd) (asks ob)) as [a r2].
    destruct r2 as [[e2|]|]; simpl; (split; [lia|]); auto.
    right. repeat split; trivial. lia.
  - rewrite (ApplyUpdate_rejected _ _ _ Hn). split; [lia|auto].
Qed.

(** X13.  A diff that was accepted and whose levels all parse is refused
    as stale when it is delivered again: the second call returns [nil]
    and leaves the book of the first (for a final sequence below the top
    of the [int64] range). *)
Theorem ApplyUpdate_replay ob upd :
  acceptable ob upd ->
  forallb (levelParses ParseFloat) (UpdateMsg.Bids upd) = true ->
  forallb (levelParses ParseFloat) (UpdateMsg.Asks upd) = true ->
  min_int64 <= UpdateMsg.FinalID upd < max_int64 ->
  ApplyUpdate ParseFloat (fst (ApplyUpdate ParseFloat ob upd)) upd
  = (fst (ApplyUpdate ParseFloat ob upd), Returned None).
Proof.
  intros Hacc Hb Ha Hr.
  rewrite (ApplyUpdate_applied _ _ _ Hacc Hb Ha). simpl.
  apply ApplyUpdate_stale_eq. simpl.
  rewrite (Int64Facts.add64_succ _ Hr). lia.
Qed.

(** X14.  [ApplyUpdate] answers [ErrGap] exactly when the diff starts
    after [lastID + 1] and does not end before it; no entry, well formed
    or not, can make it answer [ErrGap], and the book is then the one
    before the call. *)
Theorem ApplyUpdate_gap_iff ob upd :
  (snd (ApplyUpdate ParseFloat ob upd) = Returned (Some ErrGap)
   <-> add64 (lastID ob) 1 < UpdateMsg.FirstID upd
       /\ add64 (lastID ob) 1 <= UpdateMsg.FinalID upd)
  /\ (snd (ApplyUpdate ParseFloat ob upd) = Returned (Some ErrGap) ->
      fst (ApplyUpdate ParseFloat ob upd) = ob).
Proof.
  assert (Hiff : snd (ApplyUpdate ParseFloat ob upd) = Returned (Some ErrGap)
                 <-> add64 (lastID ob) 1 < UpdateMsg.FirstID upd
                     /\ add64 (lastID ob) 1 <= UpdateMsg.FinalID upd).
  { split.
    - intros H.
      destruct (Z_lt_dec (UpdateMsg.FinalID upd) (add64 (lastID ob) 1)) as [Hs|Hs].
      + rewrite (ApplyUpdate_stale_eq _ _ _ Hs) in H. discriminate.
      + destruct (Z_lt_dec (add64 (lastID ob) 1) (UpdateMsg.FirstID upd))
          as [Hg|Hg]; [lia|].
        exfalso.
        assert (Hacc : acceptable ob upd) by (unfold acceptable; lia).
        rewrite (ApplyUpdate_accepted_eq _ _ _ Hacc) in H.
        pose proof (parseLevels_not_gap (UpdateMsg.Bids upd) (bids ob)) as Nb.
        pose proof (parseLevels_not_gap (UpdateMsg.Asks upd) (asks ob)) as Na.
        destruct (parseLevels ParseFloat (UpdateMsg.Bids upd) (bids ob)) as [b r1].
        destruct r1 as [[e1|]|]; simpl in *; try congruence.
        destruct (parseLevels ParseFloat (UpdateMsg.Asks upd) (asks ob)) as [a r2].
        destruct r2 as [[e2|]|]; simpl in *; congruence.
    - intros [H1 H2]. rewrite ApplyUpdate_gap_eq; trivial. }
  split; trivial.
  intros H. apply Hiff in H. destruct H as [H1 H2].
  rewrite ApplyUpdate_gap_eq; trivial.
Qed.

End MoreUpdateFacts.

(** * The stream client *)

Section ClientFacts.

Variable ParseFloat : string -> float64 * option NumError.

Import WsClient.

(** X15.  When the sequence number the client recorded is the last
    applied sequence of the book (as it is after a snapshot that loaded),
    the [syncing] flag makes no difference to the book: the update the
    client skips while syncing is one that [ApplyUpdate] drops as stale. *)
Theorem handleUpdate_syncing_irrelevant id ob upd body :
  id = lastID ob -> min_int64 <= lastID ob < max_int64 ->
  bookOf (handleUpdate ParseFloat {| lastUpdateId := id; syncing := true |}
            ob upd body)
  = bookOf (handleUpdate ParseFloat {| lastUpdateId := id; syncing := false |}
              ob upd body).
Proof.
  intros -> Hr. unfold handleUpdate. simpl.
  destruct (Z.leb_spec (UpdateMsg.FinalID upd) (lastID ob)) as [Hle|Hgt];
    [|reflexivity].
  unfold applyTurn. rewrite ApplyUpdate_stale_eq.
  - reflexivity.
  - rewrite (Int64Facts.add64_succ _ Hr). lia.
Qed.

Lemma applyTurn_gap c ob upd body :
  add64 (lastID ob) 1 < UpdateMsg.FirstID upd ->
  add64 (lastID ob) 1 <= UpdateMsg.FinalID upd ->
  applyTurn ParseFloat c ob upd body
  = match body with
    | None => Done (c, ob)
    | Some snap =>
        match snd (ApplySnapshot ParseFloat ob snap) with
        | Panicked => Panic
        | Returned _ =>
            Done ({| lastUpdateId := SnapshotMsg.LastUpdateID snap;
                     syncing := true |},
                  fst (ApplySnapshot ParseFloat ob snap))
        end
    end.
Proof.
  intros H1 H2. unfold applyTurn. rewrite (ApplyUpdate_gap_eq _ _ _ H1 H2).
  unfold fetchSnapshot. destruct body as [snap|]; trivial.
  destruct (ApplySnapshot ParseFloat ob snap) as [ob' [e|]]; reflexivity.
Qed.

(** X16.  On a gap the client applies nothing of the update and fetches a
    snapshot: when the request fails, the book stays as it was and the
    client is left out of syncing; when it delivers a snapshot, the client
    records its sequence number and goes back to syncing, and the book is
    what [ApplySnapshot] makes of it, its error ignored. *)
Theorem handleUpdate_gap c ob upd body :
  (syncing c = true -> lastUpdateId c < UpdateMsg.FinalID upd) ->
  add64 (lastID ob) 1 < UpdateMsg.FirstID upd ->
  add64 (lastID ob) 1 <= UpdateMsg.FinalID upd ->
  handleUpdate ParseFloat c ob upd body
  = match body with
    | None => Done ({| lastUpdateId := lastUpdateId c; syncing := false |}, ob)
    | Some snap =>
        match snd (ApplySnapshot ParseFloat ob snap) with
        | Panicked => Panic
        | Returned _ =>
            Done ({| lastUpdateId := SnapshotMsg.LastUpdateID snap;
                     syncing := true |},
                  fst (ApplySnapshot ParseFloat ob snap))
        end
    end.
Proof.
  intros Hs H1 H2.
  unfold handleUpdate. destruct c as [id [|]]; simpl in *.
  - destruct (Z.leb_spec (UpdateMsg.FinalID upd) id) as [Hle|Hgt].
    + specialize (Hs eq_refl). lia.
    + apply applyTurn_gap; trivial.
  - apply applyTurn_gap; trivial.
Qed.

(** X17.  After a snapshot with sequence [S] has loaded, the first update
    decides: one that ends at or before [S] is skipped, client and book
    untouched; one that contains [S + 1] and whose levels all parse is
    applied and ends the syncing; one that ends after [S] but starts after
    [S + 1] is not applied, whatever it holds: without a fetched snapshot
    the book stays the one of the snapshot. *)
Theorem handleUpdate_after_snapshot c0 ob0 snap upd body :
  forallb (levelParses ParseFloat) (SnapshotMsg.Bids snap) = true ->
  forallb (levelParses ParseFloat) (SnapshotMsg.Asks snap) = true ->
  min_int64 <= SnapshotMsg.LastUpdateID snap < max_int64 ->
  let S := SnapshotMsg.LastUpdateID snap in
  let c1 := fst (fst (fetchSnapshot ParseFloat c0 ob0 (Some snap))) in
  let ob1 := snd (fst (fetchSnapshot ParseFloat c0 ob0 (Some snap))) in
  c1 = {| lastUpdateId := S; syncing := true |}
  /\ lastID ob1 = S
  /\ (UpdateMsg.FinalID upd <= S ->
      handleUpdate ParseFloat c1 ob1 upd body = Done (c1, ob1))
  /\ (UpdateMsg.FirstID upd <= S + 1 <= UpdateMsg.FinalID upd ->
      forallb (levelParses ParseFloat) (UpdateMsg.Bids upd) = true ->
      forallb (levelParses ParseFloat) (UpdateMsg.Asks upd) = true ->
      handleUpdate ParseFloat c1 ob1 upd body
      = Done ({| lastUpdateId := S; syncing := false |},
              appliedBook ParseFloat ob1 upd))
  /\ (S + 1 < UpdateMsg.FirstID upd -> S < UpdateMsg.FinalID upd ->
      handleUpdate ParseFloat c1 ob1 upd None
      = Done ({| lastUpdateId := S; syncing := false |}, ob1)).
Proof.
  intros Hb Ha Hr. cbv zeta. unfold fetchSnapshot.
  rewrite (ApplySnapshot_all_parse ParseFloat ob0 snap Hb Ha). simpl.
  set (ob1 := {| lastID := SnapshotMsg.LastUpdateID snap;
                 bids := bulkLoad true (positiveEntries ParseFloat (SnapshotMsg.Bids snap));
                 asks := bulkLoad false (positiveEntries ParseFloat (SnapshotMsg.Asks snap)) |}).
  assert (E1 : add64 (lastID ob1) 1 = SnapshotMsg.LastUpdateID snap + 1)
    by (apply Int64Facts.add64_succ; exact Hr).
  split; [reflexivity|]. split; [reflexivity|]. split; [|split].
  - intros Hle. unfold handleUpdate. simpl.
    destruct (Z.leb_spec (UpdateMsg.FinalID upd) (SnapshotMsg.LastUpdateID snap));
      [reflexivity|lia].
  - intros Hacc Pb Pa. unfold handleUpdate. simpl.
    destruct (Z.leb_spec (UpdateMsg.FinalID upd) (SnapshotMsg.LastUpdateID snap));
      [lia|].
    unfold applyTurn. rewrite ApplyUpdate_applied; trivial.
    unfold acceptable. rewrite E1. exact Hacc.
  - intros Hg Hf. unfold handleUpdate. simpl.
    destruct (Z.leb_spec (UpdateMsg.FinalID upd) (SnapshotMsg.LastUpdateID snap));
      [lia|].
    rewrite applyTurn_gap; trivial; rewrite E1; lia.
Qed.

(** X18.  The client keeps the book in order: from a book reached through
    clean snapshots and numeric updates, a turn on an update whose prices
    are numbers, with a fetched snapshot that is clean if there is one,
    ends (when it does not panic) on a book of the same kind, whose two
    tables are strictly sorted and in step with their quantity maps. *)
Theorem handleUpdate_keeps_order c ob upd body c' ob' :
  cleanlyReachable ParseFloat ob ->
  numericUpdate ParseFloat upd = true ->
  (forall snap, body = Some snap -> cleanSnapshot ParseFloat snap = true) ->
  handleUpdate ParseFloat c ob upd body = Done (c', ob') ->
  cleanlyReachable ParseFloat ob'
  /\ tableInv (bids ob') /\ tableInv (asks ob').
Proof.
  intros Hr Hn Hbody H.
  enough (Hc : cleanlyReachable ParseFloat ob').
  { split; trivial. apply cleanlyReachable_tableInv with (1 := Hc). }
  assert (Ht : forall c1, applyTurn ParseFloat c1 ob upd body = Done (c', ob') ->
               cleanlyReachable ParseFloat ob').
  { intros c1. unfold applyTurn.
    pose proof (reach_update ParseFloat ob upd Hr Hn) as Hu.
    destruct (ApplyUpdate ParseFloat ob upd) as [ob1 o]. simpl in Hu.
    destruct o as [[[|e]|]|]; try discriminate.
    - unfold fetchSnapshot. destruct body as [snap|].
      + pose proof (reach_snapshot ParseFloat ob1 snap Hu (Hbody snap eq_refl))
          as Hs.
        destruct (ApplySnapshot ParseFloat ob1 snap) as [ob2 [e|]];
          try discriminate; intros E; inversion E; subst; exact Hs.
      + intros E. inversion E; subst. exact Hu.
    - intros E. inversion E; subst. exact Hu.
    - intros E. inversion E; subst. exact Hu. }
  revert H. unfold handleUpdate.
  destruct (syncing c); [|apply Ht].
  destruct (UpdateMsg.FinalID upd <=? lastUpdateId c); [|apply Ht].
  intros E. inversion E; subst. exact Hr.
Qed.

End ClientFacts.

(** * Entries of an update, seen through the readers *)

Section EntryFacts.

Variable ParseFloat : string -> float64 * option NumError.

Lemma existsb_sublist_false (f : float64 -> bool) l pos :
  existsb f l = false -> existsb f (firstn pos l ++ skipn (pos + 1) l) = false.
Proof.
  intros H. destruct (existsb f (firstn pos l ++ skipn (pos + 1) l)) eqn:E; trivial.
  apply existsb_exists in E. destruct E as (x & Hx & Hf).
  assert (existsb f l = true); [|congruence].
  apply existsb_exists. exists x. split; trivial.
  apply in_app_or in Hx. destruct Hx as [Hx|Hx].
  - rewrite <- (firstn_skipn pos l). apply in_or_app. auto.
  - rewrite <- (firstn_skipn (pos + 1) l). apply in_or_app. auto.
Qed.

(** A [set] at another price does not list [p]. *)
Lemma set_other_unlisted lm p p' q' :
  eqb p' p = false -> existsb (eqb p) (prices lm) = false ->
  existsb (eqb p) (prices (set lm p' q')) = false.
Proof.
  intros Hne H. unfold set.
  destruct (eqb q' zero), (GoMap.mem p' (qtyAt lm)); simpl; trivial.
  - unfold removePrice.
    match goal with |- context [if ?c then _ else _] => destruct c end;
      simpl; trivial.
    apply existsb_sublist_false, H.
  - rewrite existsb_insert_at, H, (eqb_sym p p'), Hne. reflexivity.
Qed.

Lemma applyEntries_keeps_absent p levels : forall lm,
  forallb (fun lvl => negb (eqb (fst (parsedLevel ParseFloat lvl)) p)) levels
  = true ->
  GoMap.lookup p (qtyAt lm) = None -> existsb (eqb p) (prices lm) = false ->
  GoMap.lookup p (qtyAt (applyEntries ParseFloat levels lm)) = None
  /\ existsb (eqb p) (prices (applyEntries ParseFloat levels lm)) = false.
Proof.
  induction levels as [|lvl rest IH]; intros lm H Hl Hp; simpl in *; auto.
  apply andb_true_iff in H. destruct H as [Hne Hr].
  apply negb_true_iff in Hne.
  apply IH; trivial.
  - rewrite set_other_lookup; trivial.
  - apply set_other_unlisted; trivial.
Qed.

Lemma set_zero_absent lm p q :
  tableInv lm -> eqb q zero = true ->
  GoMap.lookup p (qtyAt (set lm p q)) = None
  /\ existsb (eqb p) (prices (set lm p q)) = false.
Proof.
  intros Hinv Hq.
  destruct (GoMap.mem p (qtyAt lm)) eqn:Hm.
  - pose proof (mem_true_number _ _ Hm) as Hp.
    pose proof (TableFacts.set_tableInv lm p q Hinv Hp) as [_ _ Hk'].
    assert (Eq : qtyAt (set lm p q) = GoMap.delete p (qtyAt lm)).
    { unfold set. rewrite Hq, Hm. apply qtyAt_removePrice. }
    unfold sameKeys in Hk'. rewrite Eq in *. split.
    + rewrite GoMapFacts.lookup_delete, (eqb_refl p Hp). reflexivity.
    + rewrite Hk', GoMapFacts.mem_delete, (eqb_refl p Hp). reflexivity.
  - assert (E : set lm p q = lm) by (unfold set; rewrite Hq, Hm; reflexivity).
    rewrite E. destruct Hinv as [_ _ Hk].
    split; [apply mem_false_lookup, Hm|]. rewrite Hk. exact Hm.
Qed.

Lemma applyEntries_tableInv levels lm :
  forallb (levelParses ParseFloat) levels = true ->
  forallb (priceIsNumber ParseFloat) levels = true ->
  tableInv lm -> tableInv (applyEntries ParseFloat levels lm).
Proof.
  intros Hp Hn Hinv.
  pose proof (parseLevels_tableInv ParseFloat levels lm Hn Hinv) as H.
  rewrite (parseLevels_all_parse ParseFloat levels lm Hp) in H. exact H.
Qed.

Lemma sideTable_applied bidSide ob upd :
  sideTable bidSide (appliedBook ParseFloat ob upd)
  = applyEntries ParseFloat (sideLevels bidSide upd) (sideTable bidSide ob).
Proof. destruct bidSide; reflexivity. Qed.

Lemma applyEntries_one s0 s1 tl post lm p q e1 e2 :
  ParseFloat s0 = (p, e1) -> ParseFloat s1 = (q, e2) ->
  applyEntries ParseFloat ((s0 :: s1 :: tl) :: post) lm
  = applyEntries ParseFloat post (set lm p q).
Proof.
  intros H0 H1. unfold applyEntries, parsedLevel. simpl.
  rewrite H0, H1. reflexivity.
Qed.

(** X19.  An entry takes effect: in an acceptable diff whose strings all
    parse, an entry with a quantity other than zero at a price that is a
    number, not named again by a later entry of its side, is stored when
    the table lists every key of its quantity map: after [ApplyUpdate]
    the price is mapped to that quantity, it is among the ordered prices,
    and [topLevels] with a large enough count shows the level. *)
Theorem ApplyUpdate_stores_level ob upd bidSide pre post s0 s1 tl p q :
  acceptable ob upd ->
  forallb (levelParses ParseFloat) (UpdateMsg.Bids upd) = true ->
  forallb (levelParses ParseFloat) (UpdateMsg.Asks upd) = true ->
  sideLevels bidSide upd = pre ++ (s0 :: s1 :: tl) :: post ->
  ParseFloat s0 = (p, None) -> ParseFloat s1 = (q, None) ->
  eqb q zero = false -> isNaN p = false ->
  forallb (fun lvl => negb (eqb (fst (parsedLevel ParseFloat lvl)) p)) post
  = true ->
  keysListed (sideTable bidSide ob) ->
  let t := sideTable bidSide (fst (ApplyUpdate ParseFloat ob upd)) in
  GoMap.lookup p (qtyAt t) = Some q
  /\ existsb (eqb p) (prices t) = true
  /\ exists levels,
       topLevels t (Z.of_nat (List.length (prices t))) = Done levels
       /\ exists l, In l levels /\ eqb (Price l) p = true /\ Quantity l = q.
Proof.
  intros Hacc Hb Ha Hl H0 H1 Hq Hp Hpost Hk. cbv zeta.
  rewrite (ApplyUpdate_applied _ _ _ Hacc Hb Ha).
  cbn [fst]. rewrite sideTable_applied, Hl, applyEntries_app.
  rewrite (applyEntries_one _ _ _ _ _ _ _ _ _ H0 H1).
  set (lm1 := applyEntries ParseFloat pre (sideTable bidSide ob)).
  assert (Hk1 : keysListed lm1) by (apply applyEntries_keysListed, Hk).
  destruct (applyEntries_keeps ParseFloat p q post (set lm1 p q) Hpost
              (set_lookup lm1 p q Hp Hq) (set_listed lm1 p q Hk1 Hp Hq))
    as [Hlook Hlist].
  split; [exact Hlook|]. split; [exact Hlist|].
  apply topLevels_all; trivial.
Qed.

(** X20.  A deletion takes effect: in an acceptable diff whose strings all
    parse, on a side whose table satisfies the invariant and whose earlier
    entries name prices that are numbers, an entry with a quantity equal
    to zero, not named again by a later entry, leaves its price out of the
    quantity map and out of the ordered prices; neither [best] nor
    [topLevels], for any count, shows a level at that price. *)
Theorem ApplyUpdate_deletes_level ob upd bidSide pre post s0 s1 tl p q :
  acceptable ob upd ->
  forallb (levelParses ParseFloat) (UpdateMsg.Bids upd) = true ->
  forallb (levelParses ParseFloat) (UpdateMsg.Asks upd) = true ->
  sideLevels bidSide upd = pre ++ (s0 :: s1 :: tl) :: post ->
  ParseFloat s0 = (p, None) -> ParseFloat s1 = (q, None) ->
  eqb q zero = true ->
  forallb (priceIsNumber ParseFloat) pre = true ->
  forallb (fun lvl => negb (eqb (fst (parsedLevel ParseFloat lvl)) p)) post
  = true ->
  tableInv (sideTable bidSide ob) ->
  let t := sideTable bidSide (fst (ApplyUpdate ParseFloat ob upd)) in
  GoMap.lookup p (qtyAt t) = None
  /\ existsb (eqb p) (prices t) = false
  /\ (forall n levels l, topLevels t n = Done levels -> In l levels ->
        eqb (Price l) p = false)
  /\ (forall x qx, best t = (x, qx, true) -> eqb x p = false).
Proof.
  intros Hacc Hb Ha Hl H0 H1 Hq Hpre Hpost Hinv. cbv zeta.
  rewrite (ApplyUpdate_applied _ _ _ Hacc Hb Ha).
  cbn [fst]. rewrite sideTable_applied, Hl, applyEntries_app.
  rewrite (applyEntries_one _ _ _ _ _ _ _ _ _ H0 H1).
  set (lm1 := applyEntries ParseFloat pre (sideTable bidSide ob)).
  assert (Hparse : forallb (levelParses ParseFloat) pre = true).
  { assert (Hs : forallb (levelParses ParseFloat) (sideLevels bidSide upd) = true)
      by (destruct bidSide; assumption).
    rewrite Hl, forallb_app in Hs. apply andb_true_iff in Hs. tauto. }
  assert (Hinv1 : tableInv lm1) by (apply applyEntries_tableInv; trivial).
  destruct (set_zero_absent lm1 p q Hinv1 Hq) as [Hz1 Hz2].
  destruct (applyEntries_keeps_absent p post (set lm1 p q) Hpost Hz1 Hz2)
    as [Hlook Hlist].
  set (t := applyEntries ParseFloat post (set lm1 p q)) in *.
  assert (Hnone : forall x, In x (prices t) -> eqb x p = false).
  { intros x Hx. destruct (eqb x p) eqn:E; trivial.
    assert (existsb (eqb p) (prices t) = true); [|congruence].
    apply existsb_exists. exists x. split; trivial. rewrite eqb_sym. exact E. }
  split; [exact Hlook|]. split; [exact Hlist|]. split.
  - intros n levels l Ht Hin. unfold topLevels in Ht.
    destruct (min (Z.of_nat (List.length (prices t))) n <? 0); [discriminate|].
    inversion Ht; subst. apply in_map_iff in Hin.
    destruct Hin as (x & <- & Hx). simpl.
    apply Hnone. rewrite <- (firstn_skipn
      (Z.to_nat (min (Z.of_nat (List.length (prices t))) n)) (prices t)).
    apply in_or_app. auto.
  - intros x qx Hbest. apply Hnone. eapply best_In, Hbest.
Qed.

End EntryFacts.

(** * The further properties on the scenarios *)

Module MoreInstances.

Import Scenario MoreScenario WsClient.

Lemma book4_reachable : cleanlyReachable parse book4.
Proof.
  unfold book4. apply reach_snapshot; [apply reach_New|vm_compute; reflexivity].
Qed.

Lemma book4_tableInv : tableInv (bids book4) /\ tableInv (asks book4).
Proof. apply cleanlyReachable_tableInv with (1 := book4_reachable). Qed.

(** A bid at 99.5 set on the bids of [book4]. *)
Lemma set_keeps_invariant_witness :
  tableInv (set (bids book4) (fst (parse "99.5")) (ofZ 2))
  /\ isBid (set (bids book4) (fst (parse "99.5")) (ofZ 2)) = isBid (bids book4).
Proof.
  apply set_keeps_invariant; [apply book4_tableInv|reflexivity].
Defined.

(** The bid at 100 of [book4] set to zero. *)
Lemma set_zero_removes_witness :
  let lm' := set (bids book4) (ofZ 100) zero in
  GoMap.lookup (ofZ 100) (qtyAt lm') = None
  /\ existsb (eqb (ofZ 100)) (prices lm') = false
  /\ forall r, eqb (ofZ 100) r = false ->
       GoMap.lookup r (qtyAt lm') = GoMap.lookup r (qtyAt (bids book4))
       /\ existsb (eqb r) (prices lm') = existsb (eqb r) (prices (bids book4)).
Proof.
  apply set_zero_removes; [apply book4_tableInv|reflexivity].
Defined.

Lemma set_idempotent_witness :
  set (set (bids book4) (ofZ 100) (ofZ 5)) (ofZ 100) (ofZ 5)
  = set (bids book4) (ofZ 100) (ofZ 5).
Proof. apply set_idempotent. reflexivity. Defined.

(** The price 98 inserted among the bids 100 and 99. *)
Lemma insertPrice_adds_once_witness :
  sortedPrices (insertPrice (bids book4) (ofZ 98)).
Proof.
  apply (proj2 (proj2 (insertPrice_adds_once (bids book4) (ofZ 98)))).
  - apply book4_tableInv.
  - apply book4_tableInv.
  - reflexivity.
  - vm_compute. reflexivity.
Defined.


Lemma best_is_extremum_witness :
  exists rest,
    prices (bids book4) = ofZ 100 :: rest
    /\ Forall (fun x => strictlyBefore (isBid (bids book4)) (ofZ 100) x = true) rest
    /\ GoMap.lookup (ofZ 100) (qtyAt (bids book4)) = Some (ofZ 1).
Proof.
  apply (proj2 (best_is_extremum (bids book4))).
  - apply book4_tableInv.
  - reflexivity.
Defined.

Lemma topLevels_prefix_witness :
  topLevels (bids book9) 2
  = Done (map (levelOf (bids book9)) (firstn (Z.to_nat 2) (prices (bids book9)))).
Proof.
  apply (proj1 (topLevels_prefix (bids book9) 2 ltac:(lia))).
Defined.

(** The book after a snapshot that failed and a diff with a negative
    quantity. *)
Lemma reachable_noZeroQuantity_witness :
  noZeroQuantity (qtyAt (bids (fst (ApplyUpdate parse bookBadBid diffNegative))))
  /\ noZeroQuantity (qtyAt (asks (fst (ApplyUpdate parse bookBadBid diffNegative)))).
Proof.
  apply (reachable_noZeroQuantity parse).
  apply any_update. unfold bookBadBid. apply any_snapshot. apply any_New.
Defined.

Lemma ApplySnapshot_wholesale_witness :
  snd (ApplySnapshot parse book9 snapshot4) = Returned None
  /\ lastID (fst (ApplySnapshot parse book9 snapshot4)) = 7.
Proof.
  pose proof (ApplySnapshot_wholesale parse book9 snapshot4 eq_refl eq_refl) as H.
  cbv zeta in H. destruct H as (H1 & H2 & _). split; [exact H1|exact H2].
Defined.


Lemma ApplyUpdate_lastID_monotone_witness :
  lastID book4 <= lastID (fst (ApplyUpdate parse book4 diff8)).
Proof.
  apply (ApplyUpdate_lastID_monotone parse book4 diff8).
  vm_compute. split; [discriminate|reflexivity].
Defined.

Lemma ApplyUpdate_replay_witness :
  ApplyUpdate parse (fst (ApplyUpdate parse book4 diff8)) diff8
  = (fst (ApplyUpdate parse book4 diff8), Returned None).
Proof.
  apply ApplyUpdate_replay; try reflexivity.
  - unfold acceptable. vm_compute. split; discriminate.
  - vm_compute. split; [discriminate|reflexivity].
Defined.

Lemma ApplyUpdate_gap_iff_witness :
  fst (ApplyUpdate parse book1000 diffGap) = book1000.
Proof.
  apply (proj2 (ApplyUpdate_gap_iff parse book1000 diffGap)). reflexivity.
Defined.

Lemma handleUpdate_syncing_irrelevant_witness :
  bookOf (handleUpdate parse {| lastUpdateId := 7; syncing := true |}
            book4 diffOld None)
  = bookOf (handleUpdate parse {| lastUpdateId := 7; syncing := false |}
              book4 diffOld None).
Proof.
  apply handleUpdate_syncing_irrelevant; [reflexivity|].
  vm_compute. split; [discriminate|reflexivity].
Defined.

(** The far update on the syncing client: the snapshot at 1000 is fetched. *)
Lemma handleUpdate_gap_witness :
  handleUpdate parse client7 book4 diffFar (Some snapshot1000)
  = match snd (ApplySnapshot parse book4 snapshot1000) with
    | Panicked => Panic
    | Returned _ =>
        Done ({| lastUpdateId := 1000; syncing := true |},
              fst (ApplySnapshot parse book4 snapshot1000))
    end.
Proof.
  apply (handleUpdate_gap parse client7 book4 diffFar (Some snapshot1000)).
  - intros _. reflexivity.
  - vm_compute. reflexivity.
  - vm_compute. discriminate.
Defined.

Lemma handleUpdate_after_snapshot_witness :
  fst (fst (fetchSnapshot parse client7 New (Some snapshot4)))
  = {| lastUpdateId := 7; syncing := true |}
  /\ lastID (snd (fst (fetchSnapshot parse client7 New (Some snapshot4)))) = 7.
Proof.
  pose proof (handleUpdate_after_snapshot parse client7 New snapshot4 diff8 None
                eq_refl eq_refl) as H.
  cbv zeta in H.
  destruct H as (H1 & H2 & _).
  - vm_compute. split; [discriminate|reflexivity].
  - split; [exact H1|exact H2].
Defined.

Lemma handleUpdate_keeps_order_witness :
  cleanlyReachable parse book9 /\ tableInv (bids book9) /\ tableInv (asks book9).
Proof.
  apply (handleUpdate_keeps_order parse client7 book4 diff8 None
           {| lastUpdateId := 7; syncing := false |} book9).
  - apply book4_reachable.
  - vm_compute. reflexivity.
  - intros snap E. discriminate E.
  - vm_compute. reflexivity.
Defined.

(** The entry (99, 1), first of three in [diffNegative3], on a new book. *)
Lemma ApplyUpdate_stores_level_witness :
  let t := sideTable true (fst (ApplyUpdate parse New diffNegative3)) in
  GoMap.lookup (ofZ 99) (qtyAt t) = Some (ofZ 1)
  /\ existsb (eqb (ofZ 99)) (prices t) = true
  /\ exists levels,
       topLevels t (Z.of_nat (List.length (prices t))) = Done levels
       /\ exists l, In l levels /\ eqb (Price l) (ofZ 99) = true
                    /\ Quantity l = ofZ 1.
Proof.
  apply (ApplyUpdate_stores_level parse New diffNegative3 true
           [] [["100"; "-5"]; ["101"; "2"]]%string "99"%string "1"%string []
           (ofZ 99) (ofZ 1));
    try reflexivity.
  - unfold acceptable. vm_compute. split; discriminate.
  - intros k Hk. discriminate Hk.
Defined.

(** The entry (100, 0) of [diff8] on [book4]. *)
Lemma ApplyUpdate_deletes_level_witness :
  let t := sideTable true (fst (ApplyUpdate parse book4 diff8)) in
  GoMap.lookup (ofZ 100) (qtyAt t) = None
  /\ existsb (eqb (ofZ 100)) (prices t) = false
  /\ (forall n levels l, topLevels t n = Done levels -> In l levels ->
        eqb (Price l) (ofZ 100) = false)
  /\ (forall x qx, best t = (x, qx, true) -> eqb x (ofZ 100) = false).
Proof.
  apply (ApplyUpdate_deletes_level parse book4 diff8 true
           [["99.5"; "2"]]%string [["97"; "3"]]%string "100"%string "0"%string
           [] (ofZ 100) zero);
    try reflexivity.
  - unfold acceptable. vm_compute. split; discriminate.
  - apply book4_tableInv.
Defined.

End MoreInstances.
